(** * imgconv: format registry, encode options and codec dispatch

    A shallow embedding of [format.go] (package [imgconv]) and the
    properties of its format registry, its functional options and the
    [Encode] dispatcher.

    Conventions.
    - Go [int] values ([Format], [TIFFCompression], qualities, strides,
      coordinates) are integers in [Z]; where the modelled code does
      arithmetic on them the 64-bit wrap-around is written [wrap64].
    - A Go [string] is a sequence of bytes: Rocq's [string].
    - A Go [error] is [option string]: [None] is [nil], [Some msg] an error
      whose [Error()] text is [msg].
    - A Go [map] is a [gmap]; a [range] loop over it visits every entry
      once, in an order the runtime chooses. *)

From stdpp Require Import gmap strings list fin_maps.
From Stdlib Require Import ZArith String Ascii Lia.

Open Scope Z_scope.

(** ** Go basics *)

Definition error : Type := option string.

(** [errors.New(msg)]. *)
Definition errors_New (msg : string) : error := Some msg.

(** Bytes of a string, as the numbers Go compares them by. *)
Definition byte_val (c : ascii) : Z := Z.of_N (N_of_ascii c).

(** [c >= utf8.RuneSelf] fails: the byte is a one-byte (ASCII) rune. *)
Definition is_ascii_byte (c : ascii) : bool := byte_val c <? 128.

(** ['A' <= c && c <= 'Z']. *)
Definition is_upper_byte (c : ascii) : bool :=
  (65 <=? byte_val c) && (byte_val c <=? 90).

(** [c += 'a' - 'A'] on an upper-case byte, other bytes unchanged. *)
Definition lower_byte (c : ascii) : ascii :=
  if is_upper_byte c then ascii_of_N (N_of_ascii c + 32) else c.

Fixpoint all_bytes (p : ascii -> bool) (s : string) : bool :=
  match s with
  | EmptyString => true
  | String c s' => p c && all_bytes p s'
  end.

Fixpoint some_byte (p : ascii -> bool) (s : string) : bool :=
  match s with
  | EmptyString => false
  | String c s' => p c || some_byte p s'
  end.

Fixpoint map_bytes (f : ascii -> ascii) (s : string) : string :=
  match s with
  | EmptyString => EmptyString
  | String c s' => String (f c) (map_bytes f s')
  end.

Section Strings.

(** [strings.Map(unicode.ToLower, s)], the path [strings.ToLower] takes
    for a string with a byte outside ASCII.  It needs the Unicode case
    tables, which are not part of this repository: nothing is assumed
    about it. *)
Variable Map_unicode_ToLower : string -> string.

(** [strings.ToLower] (Go 1.15): an ASCII-only string without upper-case
    letters is returned as it is, an ASCII-only string is lower-cased
    byte by byte, any other string goes through the Unicode mapping. *)
Definition ToLower (s : string) : string :=
  if all_bytes is_ascii_byte s then
    if negb (some_byte is_upper_byte s) then s
    else map_bytes lower_byte s
  else Map_unicode_ToLower s.

End Strings.

(** ** Formats and the extension registry *)

(** [type Format int]. *)
Definition Format : Type := Z.

Definition JPEG : Format := 0.
Definition PNG : Format := 1.
Definition GIF : Format := 2.
Definition TIFF : Format := 3.
Definition BMP : Format := 4.
Definition PDF : Format := 5.

(** [var formatExts = map[Format]string{...}]. *)
Definition formatExts : gmap Z string :=
  {[ JPEG := "jpg"; PNG := "png"; GIF := "gif";
     TIFF := "tif"; BMP := "bmp"; PDF := "pdf" ]}%string.

(** The orders in which [for k, v := range m] may visit the entries of
    [m]: every entry once. *)
Definition range_order {V : Type} (m : gmap Z V) (order : list (Z * V)) : Prop :=
  order ≡ₚ map_to_list m.

(** The body of the loop of [FormatFromExtension] over the entries still
    to visit: the first entry whose extension is [ext] is returned; when
    the entries are exhausted the function falls through to its last
    line. *)
Fixpoint range_formatExts (entries : list (Format * string)) (ext : string)
  : Format * error :=
  match entries with
  | [] => (-1, errors_New "unsupported image format")
  | (k, v) :: rest =>
      if String.eqb ext v then (k, None) else range_formatExts rest ext
  end.

Section Registry.

Variable Map_unicode_ToLower : string -> string.

(** [FormatFromExtension], run with the iteration order [order] of
    [formatExts]. *)
Definition FormatFromExtension (order : list (Format * string)) (ext : string)
  : Format * error :=
  let ext := ToLower Map_unicode_ToLower ext in
  range_formatExts order ext.

(** What a call of [FormatFromExtension] may return: the result under
    some iteration order of the registry. *)
Definition FormatFromExtension_returns (ext : string) (r : Format * error) : Prop :=
  exists order, range_order formatExts order /\ FormatFromExtension order ext = r.

End Registry.

Definition StringOfFormat (f : Format) : string * error :=
  match formatExts !! f with
  | None => (""%string, errors_New "no such format")
  | Some str => (str, None)
  end.

(** ** TIFF compression *)

Module tiff.

(** [tiff.CompressionType] and its constants, declared by the TIFF codec
    package (outside this repository); only which constant is meant
    matters here. *)
Inductive CompressionType : Set :=
  | Uncompressed | Deflate | LZW | CCITTGroup3 | CCITTGroup4 | JPEG.

(** [tiff.Options]. *)
Record Options : Set := { Compression : CompressionType; Predictor : bool }.

End tiff.

(** [type TIFFCompression int]. *)
Definition TIFFCompression : Type := Z.

Definition TIFFUncompressed : TIFFCompression := 0.
Definition TIFFDeflate : TIFFCompression := 1.
Definition TIFFLZW : TIFFCompression := 2.
Definition TIFFCCITTGroup3 : TIFFCompression := 3.
Definition TIFFCCITTGroup4 : TIFFCompression := 4.
Definition TIFFJPEG : TIFFCompression := 5.

(** [func (c TIFFCompression) value() tiff.CompressionType]. *)
Definition TIFFCompression_value (c : TIFFCompression) : tiff.CompressionType :=
  if c =? TIFFLZW then tiff.LZW
  else if c =? TIFFDeflate then tiff.Deflate
  else if c =? TIFFCCITTGroup3 then tiff.CCITTGroup3
  else if c =? TIFFCCITTGroup4 then tiff.CCITTGroup4
  else if c =? TIFFJPEG then tiff.JPEG
  else tiff.Uncompressed.

(** ** Option records of the other codecs

    Only the fields [Encode] sets are modelled; Go leaves the others at
    their zero value. *)

Module jpeg.
Record Options : Set := { Quality : Z }.
End jpeg.

Module pdf.
Record Options : Set := { Quality : Z }.
End pdf.

Module png.
(** [type CompressionLevel int], with [DefaultCompression = 0]. *)
Definition CompressionLevel : Type := Z.
Definition DefaultCompression : CompressionLevel := 0.
Module Encoder.
Record t : Type := { CompressionLevel : png.CompressionLevel }.
End Encoder.
End png.

Module gif.
Section Options.
(** [draw.Quantizer] and [draw.Drawer] are interfaces; a field of such a
    type holds [nil] ([None]) or an implementation. *)
Context {draw_Quantizer draw_Drawer : Type}.
Record Options : Type :=
  { NumColors : Z;
    Quantizer : option draw_Quantizer;
    Drawer : option draw_Drawer }.
End Options.
Arguments Options : clear implicits.
End gif.

(** ** The encode configuration *)

Module encodeConfig.
Section Fields.
Context {draw_Quantizer draw_Drawer : Type}.

Record t : Type :=
  { Quality : Z;
    gifNumColors : Z;
    gifQuantizer : option draw_Quantizer;
    gifDrawer : option draw_Drawer;
    pngCompressionLevel : png.CompressionLevel;
    tiffCompressionType : TIFFCompression }.

(** Field assignments [c.F = v]. *)
Definition set_Quality (v : Z) (c : t) : t :=
  {| Quality := v; gifNumColors := gifNumColors c;
     gifQuantizer := gifQuantizer c; gifDrawer := gifDrawer c;
     pngCompressionLevel := pngCompressionLevel c;
     tiffCompressionType := tiffCompressionType c |}.

Definition set_gifNumColors (v : Z) (c : t) : t :=
  {| Quality := Quality c; gifNumColors := v;
     gifQuantizer := gifQuantizer c; gifDrawer := gifDrawer c;
     pngCompressionLevel := pngCompressionLevel c;
     tiffCompressionType := tiffCompressionType c |}.

Definition set_gifQuantizer (v : option draw_Quantizer) (c : t) : t :=
  {| Quality := Quality c; gifNumColors := gifNumColors c;
     gifQuantizer := v; gifDrawer := gifDrawer c;
     pngCompressionLevel := pngCompressionLevel c;
     tiffCompressionType := tiffCompressionType c |}.

Definition set_gifDrawer (v : option draw_Drawer) (c : t) : t :=
  {| Quality := Quality c; gifNumColors := gifNumColors c;
     gifQuantizer := gifQuantizer c; gifDrawer := v;
     pngCompressionLevel := pngCompressionLevel c;
     tiffCompressionType := tiffCompressionType c |}.

Definition set_pngCompressionLevel (v : png.CompressionLevel) (c : t) : t :=
  {| Quality := Quality c; gifNumColors := gifNumColors c;
     gifQuantizer := gifQuantizer c; gifDrawer := gifDrawer c;
     pngCompressionLevel := v;
     tiffCompressionType := tiffCompressionType c |}.

Definition set_tiffCompressionType (v : TIFFCompression) (c : t) : t :=
  {| Quality := Quality c; gifNumColors := gifNumColors c;
     gifQuantizer := gifQuantizer c; gifDrawer := gifDrawer c;
     pngCompressionLevel := pngCompressionLevel c;
     tiffCompressionType := v |}.

End Fields.
Arguments t : clear implicits.
End encodeConfig.

Section Options.
Context {draw_Quantizer draw_Drawer : Type}.
Local Abbreviation encodeConfig := (encodeConfig.t draw_Quantizer draw_Drawer).

(** The initialiser of [var defaultEncodeConfig]. *)
Definition defaultEncodeConfig_init : encodeConfig :=
  {| encodeConfig.Quality := 75;
     encodeConfig.gifNumColors := 256;
     encodeConfig.gifQuantizer := None;
     encodeConfig.gifDrawer := None;
     encodeConfig.pngCompressionLevel := png.DefaultCompression;
     encodeConfig.tiffCompressionType := TIFFLZW |}.

(** The two [encodeConfig] variables an option function can be handed a
    pointer to: the package-level [defaultEncodeConfig] and the local
    [cfg] of the running [Encode]. *)
Inductive cfg_addr : Set := addr_defaultEncodeConfig | addr_cfg.

(** The contents of these two variables. *)
Record ConfigMem : Type :=
  { var_defaultEncodeConfig : encodeConfig;
    var_cfg : encodeConfig }.

(** [*p]. *)
Definition load (p : cfg_addr) (m : ConfigMem) : encodeConfig :=
  match p with
  | addr_defaultEncodeConfig => var_defaultEncodeConfig m
  | addr_cfg => var_cfg m
  end.

(** [*p = v]. *)
Definition store (p : cfg_addr) (v : encodeConfig) (m : ConfigMem) : ConfigMem :=
  match p with
  | addr_defaultEncodeConfig =>
      {| var_defaultEncodeConfig := v; var_cfg := var_cfg m |}
  | addr_cfg =>
      {| var_defaultEncodeConfig := var_defaultEncodeConfig m; var_cfg := v |}
  end.

(** [type EncodeOption]: a function taking a pointer to an [encodeConfig];
    as a closure it updates the configuration memory through the pointer
    it is given.  This is a non-nil value of the Go type; a value that
    may be nil is an [option] of it, see [Encode_or_nil]. *)
Definition EncodeOption : Type := cfg_addr -> ConfigMem -> ConfigMem.

Definition Quality (quality : Z) : EncodeOption :=
  fun c m => store c (encodeConfig.set_Quality quality (load c m)) m.

Definition GIFNumColors (numColors : Z) : EncodeOption :=
  fun c m => store c (encodeConfig.set_gifNumColors numColors (load c m)) m.

Definition GIFQuantizer (quantizer : option draw_Quantizer) : EncodeOption :=
  fun c m => store c (encodeConfig.set_gifQuantizer quantizer (load c m)) m.

Definition GIFDrawer (drawer : option draw_Drawer) : EncodeOption :=
  fun c m => store c (encodeConfig.set_gifDrawer drawer (load c m)) m.

Definition PNGCompressionLevel (level : png.CompressionLevel) : EncodeOption :=
  fun c m => store c (encodeConfig.set_pngCompressionLevel level (load c m)) m.

Definition TIFFCompressionType (compressionType : TIFFCompression) : EncodeOption :=
  fun c m => store c (encodeConfig.set_tiffCompressionType compressionType (load c m)) m.

(** The option functions this package can hand out: the results of its
    six constructors. *)
Inductive constructed : EncodeOption -> Prop :=
  | constructed_Quality q : constructed (Quality q)
  | constructed_GIFNumColors n : constructed (GIFNumColors n)
  | constructed_GIFQuantizer q : constructed (GIFQuantizer q)
  | constructed_GIFDrawer d : constructed (GIFDrawer d)
  | constructed_PNGCompressionLevel l : constructed (PNGCompressionLevel l)
  | constructed_TIFFCompressionType t : constructed (TIFFCompressionType t).

(** An option function that reaches memory only through the pointer it
    is given: it replaces the configuration the pointer refers to by a
    function of it.  The six constructors return such functions
    ([constructed_through_pointer]). *)
Definition through_pointer (o : EncodeOption) : Prop :=
  exists g : encodeConfig -> encodeConfig,
    forall c m, o c m = store c (g (load c m)) m.

(** The first statements of [Encode]:
    [cfg := defaultEncodeConfig; for _, option := range f.EncodeOption { option(&cfg) }],
    started with [defaultEncodeConfig] holding [d].  [cfg] is a value
    copy; every option is called with [&cfg], in slice order. *)
Definition apply_options (options : list EncodeOption) (d : encodeConfig) : ConfigMem :=
  fold_left (fun m option => option addr_cfg m) options
    {| var_defaultEncodeConfig := d; var_cfg := d |}.

End Options.
Arguments EncodeOption : clear implicits.
Arguments ConfigMem : clear implicits.

(** [type FormatOption struct]. *)
Module FormatOption.
Section Fields.
Context {draw_Quantizer draw_Drawer : Type}.
Record t : Type :=
  { Format : Format;
    EncodeOption : list (EncodeOption draw_Quantizer draw_Drawer) }.
End Fields.
Arguments t : clear implicits.
End FormatOption.

Section SetFormat.
Context {draw_Quantizer draw_Drawer : Type}.
Variable Map_unicode_ToLower : string -> string.

(** [setFormat]: on an error the named result [fo] is returned as it was
    declared, the zero value. *)
Definition setFormat (order : list (Format * string)) (filename : string)
    (options : list (EncodeOption draw_Quantizer draw_Drawer))
  : FormatOption.t draw_Quantizer draw_Drawer * error :=
  let '(format, err) := FormatFromExtension Map_unicode_ToLower order filename in
  match err with
  | Some _ => ({| FormatOption.Format := 0; FormatOption.EncodeOption := [] |}, err)
  | None =>
      ({| FormatOption.Format := format; FormatOption.EncodeOption := options |}, None)
  end.

End SetFormat.

(** ** Images

    The parts of Go's [image] package that [Encode] touches, from the Go
    standard library. *)

(** A Go function either returns or panics. *)
Inductive run (A : Type) : Type :=
  | Panics
  | Returns (a : A).
Arguments Panics {A}.
Arguments Returns {A} a.

(** 64-bit two's complement wrap-around of [int] arithmetic. *)
Definition wrap64 (z : Z) : Z := (z + 2 ^ 63) mod 2 ^ 64 - 2 ^ 63.

Module image.

Record Point : Set := { X : Z; Y : Z }.

Record Rectangle : Set := { Min : Point; Max : Point }.

(** [r.Min.X >= r.Max.X || r.Min.Y >= r.Max.Y]. *)
Definition Rectangle_Empty (r : Rectangle) : bool :=
  (X (Min r) >=? X (Max r)) || (Y (Min r) >=? Y (Max r)).

(** [r.Max.X - r.Min.X]. *)
Definition Rectangle_Dx (r : Rectangle) : Z := wrap64 (X (Max r) - X (Min r)).

(** A [[]uint8] slice header: the backing array it points into, where it
    starts there, its length and its capacity.  Two slices with the same
    header share their elements. *)
Record Slice : Set :=
  { array : positive; offset : nat; len : nat; cap : nat }.

(** [s[i]] in a heap [h] of backing arrays; [None] is the run-time panic
    for an index out of range (the slice of a running program points into
    an allocated array, so the array is found). *)
Definition index (h : gmap positive (list Z)) (s : Slice) (i : Z) : option Z :=
  if (0 <=? i) && (i <? Z.of_nat (len s)) then
    match h !! array s with
    | Some elems => elems !! (offset s + Z.to_nat i)%nat
    | None => None
    end
  else None.

Module RGBA.
Record t : Set := { Pix : Slice; Stride : Z; Rect : Rectangle }.
End RGBA.

Module NRGBA.
Record t : Set := { Pix : Slice; Stride : Z; Rect : Rectangle }.

(** The inner loop of [Opaque],
    [for i := i0; i < i1; i += 4 { if p.Pix[i] != 0xff { return false } }],
    from the index [i] on: [Returns false] is the early return,
    [Returns true] the end of the loop.  [fuel] bounds the iterations;
    [None] is fuel running out. *)
Fixpoint Opaque_row (fuel : nat) (h : gmap positive (list Z)) (pix : Slice)
    (i i1 : Z) : option (run bool) :=
  match fuel with
  | O => None
  | S fuel' =>
      if i <? i1 then
        match index h pix i with
        | None => Some Panics
        | Some a =>
            if a =? 255 then Opaque_row fuel' h pix (wrap64 (i + 4)) i1
            else Some (Returns false)
        end
      else Some (Returns true)
  end.

(** The inner loop with the fuel it can need: an iteration that goes on
    has read [pix] at an index below [len pix], larger than the one
    before (see [Opaque_row_fuel]). *)
Definition Opaque_scan (h : gmap positive (list Z)) (pix : Slice) (i0 i1 : Z)
  : run bool :=
  match Opaque_row (S (len pix)) h pix i0 i1 with
  | Some r => r
  | None => Panics
  end.

(** The outer loop, [for y := p.Rect.Min.Y; y < p.Rect.Max.Y; y++], with
    [rows] values of [y] left ([y] stays below [p.Rect.Max.Y], so [y++]
    does not wrap). *)
Fixpoint Opaque_rows (rows : nat) (h : gmap positive (list Z)) (pix : Slice)
    (stride i0 i1 : Z) : run bool :=
  match rows with
  | O => Returns true
  | S rows' =>
      match Opaque_scan h pix i0 i1 with
      | Returns true =>
          Opaque_rows rows' h pix stride (wrap64 (i0 + stride)) (wrap64 (i1 + stride))
      | r => r
      end
  end.

(** [func (p *NRGBA) Opaque() bool]. *)
Definition Opaque (h : gmap positive (list Z)) (p : t) : run bool :=
  if Rectangle_Empty (Rect p) then Returns true
  else
    Opaque_rows (Z.to_nat (Y (Max (Rect p)) - Y (Min (Rect p)))) h (Pix p)
      (Stride p) 3 (wrap64 (Rectangle_Dx (Rect p) * 4)).

(** [p.PixOffset(x, y)], for a pixel of an image whose geometry does not
    overflow. *)
Definition PixOffset (p : t) (x y : Z) : Z :=
  (y - Y (Min (Rect p))) * Stride p + (x - X (Min (Rect p))) * 4.

(** The alpha byte of the pixel at [(x, y)]. *)
Definition alpha_at (h : gmap positive (list Z)) (p : t) (x y : Z) : option Z :=
  index h (Pix p) (PixOffset p x y + 3).

(** [(x, y)] is a point of the image: [image.Pt(x, y).In(p.Rect)]. *)
Definition In_Rect (p : t) (x y : Z) : Prop :=
  X (Min (Rect p)) <= x < X (Max (Rect p)) /\
  Y (Min (Rect p)) <= y < Y (Max (Rect p)).

(** An image as [image.NewNRGBA] and [SubImage] make them: a row holds
    four bytes per pixel and fits the stride, the pixel slice covers the
    last row of a non-empty image and lies within its backing array, and
    its length stays clear of the largest [int] (the Go runtime allocates
    far less). *)
Record well_formed (h : gmap positive (list Z)) (p : t) : Prop :=
  { wf_stride : 4 * (X (Max (Rect p)) - X (Min (Rect p))) <= Stride p;
    wf_len :
      X (Min (Rect p)) < X (Max (Rect p)) ->
      Y (Min (Rect p)) < Y (Max (Rect p)) ->
      (Y (Max (Rect p)) - Y (Min (Rect p)) - 1) * Stride p
        + 4 * (X (Max (Rect p)) - X (Min (Rect p))) <= Z.of_nat (len (Pix p));
    wf_int : Z.of_nat (len (Pix p)) + 4 <= 2 ^ 63;
    wf_array :
      exists elems, h !! array (Pix p) = Some elems /\
        (offset (Pix p) + len (Pix p) <= List.length elems)%nat }.

End NRGBA.

End image.

(** ** The codecs and [Encode] *)

Section Encode.
Context {draw_Quantizer draw_Drawer OtherImage Writer : Type}.
Local Abbreviation encodeConfig := (encodeConfig.t draw_Quantizer draw_Drawer).

(** An [image.Image] interface value holding an image: a pointer to an
    [image.NRGBA], a pointer to an [image.RGBA], or a value of any other
    implementation.  The pointed-to structs are never written by this
    package, so a pointer is modelled by the struct it points to. *)
Inductive Image : Type :=
  | NRGBA_ptr (p : image.NRGBA.t)
  | RGBA_ptr (p : image.RGBA.t)
  | other_image (m : OtherImage).

(** The calls [Encode] makes into the codec packages, each with the
    arguments it is given besides the writer. *)
Inductive CodecCall : Type :=
  | jpeg_Encode (m : Image) (o : jpeg.Options)
  | png_Encoder_Encode (enc : png.Encoder.t) (m : Image)
  | gif_Encode (m : Image) (o : gif.Options draw_Quantizer draw_Drawer)
  | tiff_Encode (m : Image) (o : tiff.Options)
  | bmp_Encode (m : Image)
  | pdf_Encode (imgs : list Image) (o : pdf.Options).

(** The program state [Encode] runs in: the package-level variable
    [defaultEncodeConfig] and the heap of pixel arrays. *)
Record State : Type :=
  { defaultEncodeConfig : encodeConfig;
    heap : gmap positive (list Z) }.

(** What a call of [Encode] leaves behind: the state, the contents of
    the writer, and the returned error (or a panic). *)
Record Result : Type :=
  { state : State; sink : Writer; ret : run error }.

(** The state [Encode] leaves: what its options made of
    [defaultEncodeConfig], and the heap as it was. *)
Definition state_after (f : FormatOption.t draw_Quantizer draw_Drawer) (st : State) : State :=
  {| defaultEncodeConfig :=
       var_defaultEncodeConfig
         (apply_options (FormatOption.EncodeOption f) (defaultEncodeConfig st));
     heap := heap st |}.

(** The configuration [Encode] reads after its options ran. *)
Definition cfg_after (f : FormatOption.t draw_Quantizer draw_Drawer) (st : State)
  : encodeConfig :=
  var_cfg (apply_options (FormatOption.EncodeOption f) (defaultEncodeConfig st)).

(** The codec packages, outside this repository: a codec reads the image
    through the heap, writes to the writer and returns an error (or
    panics).  Nothing else is known about them. *)
Variable codec : CodecCall -> gmap positive (list Z) -> Writer -> Writer * run error.

(** [return <codec call>]: the codec's result is the result of [Encode]. *)
Definition invoke (st : State) (w : Writer) (c : CodecCall) : Result :=
  let '(w', r) := codec c (heap st) w in
  {| state := st; sink := w'; ret := r |}.

(** [func (f *FormatOption) Encode(w io.Writer, img image.Image) error]. *)
Definition Encode (f : FormatOption.t draw_Quantizer draw_Drawer)
    (st : State) (w : Writer) (img : Image) : Result :=
  let m := apply_options (FormatOption.EncodeOption f) (defaultEncodeConfig st) in
  let cfg := var_cfg m in
  let st' := {| defaultEncodeConfig := var_defaultEncodeConfig m; heap := heap st |} in
  let format := FormatOption.Format f in
  if format =? JPEG then
    match img with
    | NRGBA_ptr nrgba =>
        match image.NRGBA.Opaque (heap st) nrgba with
        | Panics => {| state := st'; sink := w; ret := Panics |}
        | Returns true =>
            let rgba :=
              {| image.RGBA.Pix := image.NRGBA.Pix nrgba;
                 image.RGBA.Stride := image.NRGBA.Stride nrgba;
                 image.RGBA.Rect := image.NRGBA.Rect nrgba |} in
            invoke st' w
              (jpeg_Encode (RGBA_ptr rgba)
                 {| jpeg.Quality := encodeConfig.Quality cfg |})
        | Returns false =>
            invoke st' w
              (jpeg_Encode img {| jpeg.Quality := encodeConfig.Quality cfg |})
        end
    | _ =>
        invoke st' w
          (jpeg_Encode img {| jpeg.Quality := encodeConfig.Quality cfg |})
    end
  else if format =? PNG then
    let encoder :=
      {| png.Encoder.CompressionLevel := encodeConfig.pngCompressionLevel cfg |} in
    invoke st' w (png_Encoder_Encode encoder img)
  else if format =? GIF then
    invoke st' w
      (gif_Encode img
         {| gif.NumColors := encodeConfig.gifNumColors cfg;
            gif.Quantizer := encodeConfig.gifQuantizer cfg;
            gif.Drawer := encodeConfig.gifDrawer cfg |})
  else if format =? TIFF then
    invoke st' w
      (tiff_Encode img
         {| tiff.Compression :=
              TIFFCompression_value (encodeConfig.tiffCompressionType cfg);
            tiff.Predictor := true |})
  else if format =? BMP then
    invoke st' w (bmp_Encode img)
  else if format =? PDF then
    invoke st' w (pdf_Encode [img] {| pdf.Quality := encodeConfig.Quality cfg |})
  else
    {| state := st'; sink := w;
       ret := Returns (errors_New "unsupported image format") |}.

(** A sequence of [Encode] calls on one writer, each started where the
    one before left off. *)
Fixpoint Encode_all
    (calls : list (FormatOption.t draw_Quantizer draw_Drawer * Image))
    (st : State) (w : Writer) : State * Writer :=
  match calls with
  | [] => (st, w)
  | (f, img) :: rest =>
      let r := Encode f st w img in
      Encode_all rest (state r) (sink r)
  end.

End Encode.
Arguments Image : clear implicits.
Arguments CodecCall : clear implicits.
Arguments State : clear implicits.
Arguments Result : clear implicits.

(** The state after package initialisation, with the pixel arrays [h]. *)
Definition initial_State {draw_Quantizer draw_Drawer : Type}
    (h : gmap positive (list Z)) : State draw_Quantizer draw_Drawer :=
  {| defaultEncodeConfig := defaultEncodeConfig_init; heap := h |}.

(** Sample images: two pixels in one row, backed by the array at address
    1; in [sample_opaque_heap] both alpha bytes are 255, in
    [sample_translucent_heap] the second one is 254. *)
Definition sample_NRGBA : image.NRGBA.t :=
  {| image.NRGBA.Pix :=
       {| image.array := 1%positive; image.offset := 0%nat;
          image.len := 8%nat; image.cap := 8%nat |};
     image.NRGBA.Stride := 8;
     image.NRGBA.Rect :=
       {| image.Min := {| image.X := 0; image.Y := 0 |};
          image.Max := {| image.X := 2; image.Y := 1 |} |} |}.

Definition sample_opaque_heap : gmap positive (list Z) :=
  {[ 1%positive := [10; 20; 30; 255; 40; 50; 60; 255] ]}.

Definition sample_translucent_heap : gmap positive (list Z) :=
  {[ 1%positive := [10; 20; 30; 255; 40; 50; 60; 254] ]}.

(** A sample image with an empty rectangle and no pixels. *)
Definition sample_empty_NRGBA : image.NRGBA.t :=
  {| image.NRGBA.Pix :=
       {| image.array := 1%positive; image.offset := 0%nat;
          image.len := 0%nat; image.cap := 0%nat |};
     image.NRGBA.Stride := 0;
     image.NRGBA.Rect :=
       {| image.Min := {| image.X := 0; image.Y := 0 |};
          image.Max := {| image.X := 0; image.Y := 5 |} |} |}.

(** A codec that only records the call it received, on a writer that is
    the list of calls received so far. *)
Definition recording_codec {draw_Quantizer draw_Drawer OtherImage : Type}
    (c : CodecCall draw_Quantizer draw_Drawer OtherImage)
    (h : gmap positive (list Z))
    (w : list (CodecCall draw_Quantizer draw_Drawer OtherImage))
  : list (CodecCall draw_Quantizer draw_Drawer OtherImage) * run error :=
  (w ++ [c], Returns None).

(** ** Option values that may be nil

    A value of the Go type [EncodeOption] is nil ([None]) or a function.
    Calling nil panics: the option loop of [Encode] panics at the first
    nil element of [f.EncodeOption], after the functions before it have
    run and before the switch on the format. *)

Section OrNil.
Context {draw_Quantizer draw_Drawer : Type}.

(** The functions before the first nil of a slice of option values: the
    ones the loop of [Encode] gets to call. *)
Fixpoint before_nil (options : list (option (EncodeOption draw_Quantizer draw_Drawer)))
  : list (EncodeOption draw_Quantizer draw_Drawer) :=
  match options with
  | Some option :: rest => option :: before_nil rest
  | _ => []
  end.

(** Whether the loop meets a nil. *)
Fixpoint has_nil (options : list (option (EncodeOption draw_Quantizer draw_Drawer)))
  : bool :=
  match options with
  | [] => false
  | None :: _ => true
  | Some _ :: rest => has_nil rest
  end.

End OrNil.

(** [type FormatOption struct], with option values that may be nil. *)
Module FormatOption_or_nil.
Section Fields.
Context {draw_Quantizer draw_Drawer : Type}.
Record t : Type :=
  { Format : Format;
    EncodeOption : list (option (EncodeOption draw_Quantizer draw_Drawer)) }.

(** The format, with the functions [Encode] gets to call. *)
Definition called (f : t) : FormatOption.t draw_Quantizer draw_Drawer :=
  {| FormatOption.Format := Format f;
     FormatOption.EncodeOption := before_nil (EncodeOption f) |}.
End Fields.
Arguments t : clear implicits.
End FormatOption_or_nil.

Section EncodeOrNil.
Context {draw_Quantizer draw_Drawer OtherImage Writer : Type}.
Variable codec :
  CodecCall draw_Quantizer draw_Drawer OtherImage ->
  gmap positive (list Z) -> Writer -> Writer * run error.

(** [Encode] on a [FormatOption] whose options may be nil: when the loop
    meets a nil, the call [option(&cfg)] panics, with the writer
    untouched and the state as the options before the nil left it;
    otherwise every option is called and [Encode] goes on as above. *)
Definition Encode_or_nil (f : FormatOption_or_nil.t draw_Quantizer draw_Drawer)
    (st : State draw_Quantizer draw_Drawer) (w : Writer) (img : Image OtherImage)
  : Result draw_Quantizer draw_Drawer Writer :=
  if has_nil (FormatOption_or_nil.EncodeOption f) then
    {| state := state_after (FormatOption_or_nil.called f) st;
       sink := w;
       ret := Panics |}
  else Encode codec (FormatOption_or_nil.called f) st w img.

End EncodeOrNil.

Section SetFormatOrNil.
Context {draw_Quantizer draw_Drawer : Type}.
Variable Map_unicode_ToLower : string -> string.

(** [setFormat] on option values that may be nil: it stores the slice it
    is given without looking at its elements. *)
Definition setFormat_or_nil (order : list (Format * string)) (filename : string)
    (options : list (option (EncodeOption draw_Quantizer draw_Drawer)))
  : FormatOption_or_nil.t draw_Quantizer draw_Drawer * error :=
  let '(format, err) := FormatFromExtension Map_unicode_ToLower order filename in
  match err with
  | Some _ =>
      ({| FormatOption_or_nil.Format := 0;
          FormatOption_or_nil.EncodeOption := [] |}, err)
  | None =>
      ({| FormatOption_or_nil.Format := format;
          FormatOption_or_nil.EncodeOption := options |}, None)
  end.

End SetFormatOrNil.

(** ** Describing option lists

    Names for the calls of the six option constructors and for the fields
    of [encodeConfig], to state how lists of options behave. *)

(** The fields of [encodeConfig]. *)
Inductive field : Set :=
  | f_Quality
  | f_gifNumColors
  | f_gifQuantizer
  | f_gifDrawer
  | f_pngCompressionLevel
  | f_tiffCompressionType.

#[global] Instance field_eq_dec : EqDecision field.
Proof. solve_decision. Defined.

Section OptionCalls.
Context {draw_Quantizer draw_Drawer : Type}.

(** A call of one of the six option constructors, with its argument. *)
Inductive OptionCall : Type :=
  | call_Quality (quality : Z)
  | call_GIFNumColors (numColors : Z)
  | call_GIFQuantizer (quantizer : option draw_Quantizer)
  | call_GIFDrawer (drawer : option draw_Drawer)
  | call_PNGCompressionLevel (level : png.CompressionLevel)
  | call_TIFFCompressionType (compressionType : TIFFCompression).

(** The option function the call returns. *)
Definition option_of (c : OptionCall) : EncodeOption draw_Quantizer draw_Drawer :=
  match c with
  | call_Quality quality => Quality quality
  | call_GIFNumColors numColors => GIFNumColors numColors
  | call_GIFQuantizer quantizer => GIFQuantizer quantizer
  | call_GIFDrawer drawer => GIFDrawer drawer
  | call_PNGCompressionLevel level => PNGCompressionLevel level
  | call_TIFFCompressionType compressionType => TIFFCompressionType compressionType
  end.

(** The field the returned option function assigns. *)
Definition field_of (c : OptionCall) : field :=
  match c with
  | call_Quality _ => f_Quality
  | call_GIFNumColors _ => f_gifNumColors
  | call_GIFQuantizer _ => f_gifQuantizer
  | call_GIFDrawer _ => f_gifDrawer
  | call_PNGCompressionLevel _ => f_pngCompressionLevel
  | call_TIFFCompressionType _ => f_tiffCompressionType
  end.

(** Two configurations hold the same value in a field. *)
Definition agree (fld : field) (c1 c2 : encodeConfig.t draw_Quantizer draw_Drawer)
  : Prop :=
  match fld with
  | f_Quality => encodeConfig.Quality c1 = encodeConfig.Quality c2
  | f_gifNumColors => encodeConfig.gifNumColors c1 = encodeConfig.gifNumColors c2
  | f_gifQuantizer => encodeConfig.gifQuantizer c1 = encodeConfig.gifQuantizer c2
  | f_gifDrawer => encodeConfig.gifDrawer c1 = encodeConfig.gifDrawer c2
  | f_pngCompressionLevel =>
      encodeConfig.pngCompressionLevel c1 = encodeConfig.pngCompressionLevel c2
  | f_tiffCompressionType =>
      encodeConfig.tiffCompressionType c1 = encodeConfig.tiffCompressionType c2
  end.

End OptionCalls.
Arguments OptionCall : clear implicits.

(** The fields of [cfg] that the case of [Encode] for a format mentions. *)
Definition fields_read (format : Format) : list field :=
  if format =? JPEG then [f_Quality]
  else if format =? PNG then [f_pngCompressionLevel]
  else if format =? GIF then [f_gifNumColors; f_gifQuantizer; f_gifDrawer]
  else if format =? TIFF then [f_tiffCompressionType]
  else if format =? BMP then []
  else if format =? PDF then [f_Quality]
  else [].

(** * Properties *)

(** ** Lower-casing *)

Lemma lower_byte_ascii (c : ascii) :
  is_ascii_byte (lower_byte c) = is_ascii_byte c.
Proof. destruct c as [[] [] [] [] [] [] [] []]; reflexivity. Qed.

Lemma lower_byte_not_upper (c : ascii) :
  is_upper_byte c = false -> lower_byte c = c.
Proof. unfold lower_byte. now intros ->. Qed.

Lemma map_bytes_ascii (s : string) :
  all_bytes is_ascii_byte (map_bytes lower_byte s) = all_bytes is_ascii_byte s.
Proof.
  induction s as [|c s IH]; simpl; [reflexivity|].
  now rewrite lower_byte_ascii, IH.
Qed.

Lemma map_bytes_no_upper (s : string) :
  some_byte is_upper_byte s = false -> map_bytes lower_byte s = s.
Proof.
  induction s as [|c s IH]; simpl; [reflexivity|].
  intros [Hc Hs]%orb_false_iff.
  now rewrite (lower_byte_not_upper c Hc), (IH Hs).
Qed.

(** On an ASCII-only string [strings.ToLower] is the byte-wise
    lower-casing, whatever the Unicode mapping does. *)
Lemma ToLower_ascii (U : string -> string) (s : string) :
  all_bytes is_ascii_byte s = true -> ToLower U s = map_bytes lower_byte s.
Proof.
  intros Hs. unfold ToLower. rewrite Hs.
  destruct (some_byte is_upper_byte s) eqn:Hup; simpl; [reflexivity|].
  symmetry. now apply map_bytes_no_upper.
Qed.

(** A string whose byte-wise lower-casing is ASCII-only is ASCII-only, so
    [strings.ToLower] lower-cases it byte by byte. *)
Lemma ToLower_casing (U : string -> string) (s t : string) :
  map_bytes lower_byte s = t -> all_bytes is_ascii_byte t = true ->
  ToLower U s = t.
Proof.
  intros <- Ht. apply ToLower_ascii. now rewrite <- map_bytes_ascii.
Qed.

(** ** The registry *)

Lemma formatExts_entries :
  map_to_list formatExts ≡ₚ
    [(JPEG, "jpg"); (PNG, "png"); (GIF, "gif");
     (TIFF, "tif"); (BMP, "bmp"); (PDF, "pdf")]%string.
Proof. apply (bool_decide_unpack _). vm_compute. exact I. Qed.

Lemma formatExts_lookup (k : Format) (v : string) :
  formatExts !! k = Some v <->
  (k, v) ∈ [(JPEG, "jpg"); (PNG, "png"); (GIF, "gif");
            (TIFF, "tif"); (BMP, "bmp"); (PDF, "pdf")]%string.
Proof. now rewrite <- elem_of_map_to_list, formatExts_entries. Qed.

(** The six extensions of the registry are pairwise distinct. *)
Lemma formatExts_exts_NoDup : NoDup (map_to_list formatExts).*2.
Proof.
  rewrite formatExts_entries. apply (bool_decide_unpack _). vm_compute. exact I.
Qed.

Lemma range_order_NoDup (order : list (Format * string)) :
  range_order formatExts order -> NoDup order.*2.
Proof. intros ->. exact formatExts_exts_NoDup. Qed.

Lemma range_order_elem (order : list (Format * string)) k v :
  range_order formatExts order ->
  (k, v) ∈ order <-> formatExts !! k = Some v.
Proof. intros ->. apply elem_of_map_to_list. Qed.

(** The loop returns the key of the entry holding [ext] when the values
    are pairwise distinct. *)
Lemma range_formatExts_hit (entries : list (Format * string)) k ext :
  NoDup entries.*2 -> (k, ext) ∈ entries ->
  range_formatExts entries ext = (k, None).
Proof.
  induction entries as [|[k' v'] entries IH]; intros Hnd Hin.
  - inversion Hin.
  - simpl in *. apply NoDup_cons in Hnd as [Hv' Hnd].
    apply elem_of_cons in Hin as [Heq | Hin].
    + injection Heq as -> ->. now rewrite String.eqb_refl.
    + destruct (String.eqb_spec ext v') as [-> | _]; [|now apply IH].
      exfalso. apply Hv'. apply list_elem_of_fmap. now exists (k, v').
Qed.

(** The loop falls through when no entry holds [ext]. *)
Lemma range_formatExts_miss (entries : list (Format * string)) ext :
  ext ∉ entries.*2 ->
  range_formatExts entries ext = (-1, errors_New "unsupported image format").
Proof.
  induction entries as [|[k' v'] entries IH]; intros Hnin; [reflexivity|].
  simpl in *. apply not_elem_of_cons in Hnin as [Hne Hnin].
  destruct (String.eqb_spec ext v') as [-> | _]; [contradiction|now apply IH].
Qed.

Section RegistryFacts.
Variable U : string -> string.
Variable order : list (Format * string).
Hypothesis Horder : range_order formatExts order.

Lemma FormatFromExtension_registered (ext : string) (k : Format) :
  formatExts !! k = Some (ToLower U ext) ->
  FormatFromExtension U order ext = (k, None).
Proof.
  intros Hk. unfold FormatFromExtension.
  apply range_formatExts_hit; [now apply range_order_NoDup|].
  now apply range_order_elem.
Qed.

Lemma FormatFromExtension_unregistered (ext : string) :
  (forall k, formatExts !! k <> Some (ToLower U ext)) ->
  FormatFromExtension U order ext = (-1, errors_New "unsupported image format").
Proof.
  intros Hnone. unfold FormatFromExtension.
  apply range_formatExts_miss.
  intros [[k v] [Hv Hin]]%list_elem_of_fmap. simpl in Hv.
  apply (Hnone k). rewrite Hv.
  exact (proj1 (range_order_elem order k v Horder) Hin).
Qed.

End RegistryFacts.

(** The extensions some format is registered under are the six short
    ones. *)
Lemma formatExts_ext_iff (v : string) :
  (exists k, formatExts !! k = Some v) <->
  v ∈ ["jpg"; "png"; "gif"; "tif"; "bmp"; "pdf"]%string.
Proof.
  split.
  - intros [k Hk%formatExts_lookup].
    apply (list_elem_of_fmap_2 snd) in Hk. exact Hk.
  - intros Hv.
    change (v ∈ [(JPEG, "jpg"); (PNG, "png"); (GIF, "gif");
                 (TIFF, "tif"); (BMP, "bmp"); (PDF, "pdf")]%string.*2) in Hv.
    apply list_elem_of_fmap in Hv as [[k v'] [Hv Hin]]. simpl in Hv. subst v'.
    exists k. now apply formatExts_lookup.
Qed.

(** Each extension is registered under one format only. *)
Lemma formatExts_inj (k1 k2 : Format) (v : string) :
  formatExts !! k1 = Some v -> formatExts !! k2 = Some v -> k1 = k2.
Proof.
  intros H1%elem_of_map_to_list H2%elem_of_map_to_list.
  pose proof (range_formatExts_hit _ k1 v formatExts_exts_NoDup H1) as E1.
  pose proof (range_formatExts_hit _ k2 v formatExts_exts_NoDup H2) as E2.
  congruence.
Qed.

(** Every string is either registered under a format or under none. *)
Lemma formatExts_registered_dec (v : string) :
  (exists k, formatExts !! k = Some v) \/ (forall k, formatExts !! k <> Some v).
Proof.
  destruct (decide (v ∈ ["jpg"; "png"; "gif"; "tif"; "bmp"; "pdf"]%string))
    as [Hin | Hnin].
  - left. now apply formatExts_ext_iff.
  - right. intros k Hk. apply Hnin, formatExts_ext_iff. now exists k.
Qed.

(** Two iteration orders of the registry give the same result. *)
Lemma FormatFromExtension_order_irrelevant (U : string -> string)
    (order1 order2 : list (Format * string)) (ext : string) :
  range_order formatExts order1 -> range_order formatExts order2 ->
  FormatFromExtension U order1 ext = FormatFromExtension U order2 ext.
Proof.
  intros H1 H2.
  destruct (formatExts_registered_dec (ToLower U ext)) as [[k Hk] | Hnone].
  - now rewrite (FormatFromExtension_registered U order1 H1 ext k Hk),
      (FormatFromExtension_registered U order2 H2 ext k Hk).
  - now rewrite (FormatFromExtension_unregistered U order1 H1 ext Hnone),
      (FormatFromExtension_unregistered U order2 H2 ext Hnone).
Qed.

(** C2. For each of the six formats JPEG, PNG, GIF, TIFF, BMP and PDF,
    [StringOfFormat] succeeds and [FormatFromExtension], under every
    iteration order of the registry, resolves the extension it returned
    to the same format with a nil error. *)
Theorem extension_round_trip (U : string -> string)
    (order : list (Format * string)) (F : Format) :
  range_order formatExts order ->
  F ∈ [JPEG; PNG; GIF; TIFF; BMP; PDF] ->
  (StringOfFormat F).2 = None /\
  FormatFromExtension U order (StringOfFormat F).1 = (F, None).
Proof.
  intros Horder HF.
  repeat (apply elem_of_cons in HF as [-> | HF];
          [split; [reflexivity|];
           apply FormatFromExtension_registered; [assumption|];
           vm_compute; reflexivity|]).
  inversion HF.
Qed.

Lemma extension_round_trip_witness :
  (StringOfFormat TIFF).2 = None /\
  FormatFromExtension (fun s => s) (reverse (map_to_list formatExts))
    (StringOfFormat TIFF).1 = (TIFF, None).
Proof.
  apply (extension_round_trip (fun s => s) (reverse (map_to_list formatExts)) TIFF).
  - unfold range_order. apply reverse_Permutation.
  - vm_compute. do 3 right. left.
Defined.

(** C6. [FormatFromExtension] matches the lower-cased input against the
    registry: it returns the format registered under the lower-cased
    string; two strings with the same lower-casing, such as two ASCII
    strings that differ only in letter case, resolve alike, and "Jpg" and
    "JPG" resolve to JPEG; a string whose lower-casing is none of the six
    registered extensions, "txt" among them, gets the format -1 and an
    error. *)
Theorem FormatFromExtension_lower_cases (U : string -> string)
    (order : list (Format * string)) :
  range_order formatExts order ->
  (forall ext k, formatExts !! k = Some (ToLower U ext) ->
     FormatFromExtension U order ext = (k, None)) /\
  (forall s1 s2,
     ToLower U s1 = ToLower U s2 ->
     FormatFromExtension U order s1 = FormatFromExtension U order s2) /\
  (forall s1 s2,
     all_bytes is_ascii_byte s1 = true -> all_bytes is_ascii_byte s2 = true ->
     map_bytes lower_byte s1 = map_bytes lower_byte s2 ->
     FormatFromExtension U order s1 = FormatFromExtension U order s2) /\
  FormatFromExtension U order "Jpg" = (JPEG, None) /\
  FormatFromExtension U order "JPG" = (JPEG, None) /\
  (forall ext,
     ToLower U ext ∉ ["jpg"; "png"; "gif"; "tif"; "bmp"; "pdf"]%string ->
     FormatFromExtension U order ext
     = (-1, errors_New "unsupported image format")) /\
  FormatFromExtension U order "txt" = (-1, errors_New "unsupported image format").
Proof.
  intros Horder.
  assert (Hmiss : forall ext,
    ToLower U ext ∉ ["jpg"; "png"; "gif"; "tif"; "bmp"; "pdf"]%string ->
    FormatFromExtension U order ext
    = (-1, errors_New "unsupported image format")).
  { intros ext Hnin. apply FormatFromExtension_unregistered; [assumption|].
    intros k Hk. apply Hnin, formatExts_ext_iff. now exists k. }
  repeat split.
  - intros ext k. now apply FormatFromExtension_registered.
  - intros s1 s2 Heq. unfold FormatFromExtension. now rewrite Heq.
  - intros s1 s2 H1 H2 Heq. unfold FormatFromExtension.
    now rewrite (ToLower_ascii U s1 H1), (ToLower_ascii U s2 H2), Heq.
  - now apply FormatFromExtension_registered.
  - now apply FormatFromExtension_registered.
  - exact Hmiss.
  - apply Hmiss. change (ToLower U "txt") with "txt"%string.
    apply (bool_decide_unpack _). vm_compute. exact I.
Qed.

Lemma FormatFromExtension_lower_cases_witness :
  FormatFromExtension (fun s => s) (map_to_list formatExts) "Jpg" = (JPEG, None) /\
  FormatFromExtension (fun s => s) (map_to_list formatExts) "txt"
  = (-1, errors_New "unsupported image format").
Proof.
  pose proof (FormatFromExtension_lower_cases (fun s => s)
                (map_to_list formatExts)) as H.
  unfold range_order in H. specialize (H (Permutation_refl _)).
  split; [apply H | apply H].
Defined.

(** C9. The long forms "jpeg" and "tiff", in any letter casing, are not
    registered: [FormatFromExtension] returns the format -1 and the error
    "unsupported image format" for them, under every iteration order of
    the registry; a string resolves exactly when its lower-casing is one
    of jpg, png, gif, tif, bmp, pdf. *)
Theorem FormatFromExtension_long_forms (U : string -> string)
    (order : list (Format * string)) :
  range_order formatExts order ->
  (forall s,
     map_bytes lower_byte s = "jpeg"%string \/
     map_bytes lower_byte s = "tiff"%string \/
     ToLower U s = "jpeg"%string \/ ToLower U s = "tiff"%string ->
     FormatFromExtension U order s
     = (-1, errors_New "unsupported image format")) /\
  (forall s,
     (FormatFromExtension U order s).2 = None <->
     ToLower U s ∈ ["jpg"; "png"; "gif"; "tif"; "bmp"; "pdf"]%string).
Proof.
  intros Horder. split.
  - intros s Hs.
    assert (Hlow : ToLower U s = "jpeg"%string \/ ToLower U s = "tiff"%string).
    { destruct Hs as [Hs | [Hs | [Hs | Hs]]]; auto.
      - left. now apply ToLower_casing.
      - right. now apply ToLower_casing. }
    apply FormatFromExtension_unregistered; [assumption|].
    intros k Hk.
    assert (Hin : ToLower U s ∈ ["jpg"; "png"; "gif"; "tif"; "bmp"; "pdf"]%string)
      by (apply formatExts_ext_iff; now exists k).
    revert Hin. destruct Hlow as [-> | ->];
      apply (bool_decide_unpack _); vm_compute; exact I.
  - intros s. split.
    + intros Hnil.
      destruct (formatExts_registered_dec (ToLower U s)) as [Hk | Hnone].
      * now apply formatExts_ext_iff.
      * rewrite (FormatFromExtension_unregistered U order Horder s Hnone) in Hnil.
        discriminate Hnil.
    + intros [k Hk]%formatExts_ext_iff.
      now rewrite (FormatFromExtension_registered U order Horder s k Hk).
Qed.

Lemma FormatFromExtension_long_forms_witness :
  FormatFromExtension (fun s => s) (map_to_list formatExts) "JpEg"
  = (-1, errors_New "unsupported image format").
Proof.
  pose proof (FormatFromExtension_long_forms (fun s => s)
                (map_to_list formatExts)) as H.
  unfold range_order in H. destruct (H (Permutation_refl _)) as [Hlong _].
  apply Hlong. left. reflexivity.
Defined.

(** C10. The six extensions of the registry are pairwise distinct, so an
    input matches at most one entry, and [FormatFromExtension] returns
    one and the same pair of format and error on an input whatever order
    the runtime iterates the registry in; it returns under every order. *)
Theorem FormatFromExtension_deterministic (U : string -> string) (ext : string) :
  NoDup (map_to_list formatExts).*2 /\
  (forall k1 k2,
     formatExts !! k1 = Some (ToLower U ext) ->
     formatExts !! k2 = Some (ToLower U ext) -> k1 = k2) /\
  (forall r1 r2,
     FormatFromExtension_returns U ext r1 ->
     FormatFromExtension_returns U ext r2 -> r1 = r2) /\
  (exists r, FormatFromExtension_returns U ext r).
Proof.
  split; [exact formatExts_exts_NoDup|].
  split; [intros k1 k2; apply formatExts_inj|].
  split.
  - intros r1 r2 [order1 [H1 <-]] [order2 [H2 <-]].
    now apply FormatFromExtension_order_irrelevant.
  - exists (FormatFromExtension U (map_to_list formatExts) ext).
    exists (map_to_list formatExts). split; [apply Permutation_refl|reflexivity].
Qed.

(** The cases of [setFormat] its test exercises. *)
Example setFormat_Jpg (U : string -> string) (order : list (Format * string)) :
  range_order formatExts order ->
  setFormat (draw_Quantizer := unit) (draw_Drawer := unit) U order "Jpg" []
  = ({| FormatOption.Format := JPEG; FormatOption.EncodeOption := [] |}, None).
Proof.
  intros Horder. unfold setFormat.
  now rewrite (FormatFromExtension_registered U order Horder "Jpg" JPEG).
Qed.

Example setFormat_txt (U : string -> string) (order : list (Format * string)) :
  range_order formatExts order ->
  (setFormat (draw_Quantizer := unit) (draw_Drawer := unit) U order "txt" []).2
  = errors_New "unsupported image format".
Proof.
  intros Horder. unfold setFormat.
  rewrite (FormatFromExtension_unregistered U order Horder "txt"); [reflexivity|].
  intros k Hk.
  assert (Hin : "txt"%string ∈ ["jpg"; "png"; "gif"; "tif"; "bmp"; "pdf"]%string)
    by (apply formatExts_ext_iff; now exists k).
  revert Hin. apply (bool_decide_unpack _). vm_compute. exact I.
Qed.

(** ** TIFF compression *)

(** C7. [TIFFCompression.value] maps TIFFLZW, TIFFDeflate,
    TIFFCCITTGroup3, TIFFCCITTGroup4 and TIFFJPEG to the codec's
    constants of the same name, and every other integer, TIFFUncompressed
    among them, to [tiff.Uncompressed]. *)
Theorem TIFFCompression_value_spec :
  TIFFCompression_value TIFFLZW = tiff.LZW /\
  TIFFCompression_value TIFFDeflate = tiff.Deflate /\
  TIFFCompression_value TIFFCCITTGroup3 = tiff.CCITTGroup3 /\
  TIFFCompression_value TIFFCCITTGroup4 = tiff.CCITTGroup4 /\
  TIFFCompression_value TIFFJPEG = tiff.JPEG /\
  TIFFCompression_value TIFFUncompressed = tiff.Uncompressed /\
  (forall c : TIFFCompression,
     c ∉ [TIFFLZW; TIFFDeflate; TIFFCCITTGroup3; TIFFCCITTGroup4; TIFFJPEG] ->
     TIFFCompression_value c = tiff.Uncompressed).
Proof.
  repeat split; try reflexivity.
  intros c Hc. unfold TIFFCompression_value.
  repeat match goal with
         | |- context [c =? ?k] =>
             destruct (Z.eqb_spec c k) as [Heq | _];
             [exfalso; apply Hc; rewrite Heq; set_solver|]
         end.
  reflexivity.
Qed.

(** ** Options *)

Section OptionFacts.
Context {draw_Quantizer draw_Drawer : Type}.
Local Abbreviation encodeConfig := (encodeConfig.t draw_Quantizer draw_Drawer).
Local Abbreviation EncodeOption := (EncodeOption draw_Quantizer draw_Drawer).
Local Abbreviation ConfigMem := (ConfigMem draw_Quantizer draw_Drawer).

Lemma constructed_through_pointer (o : EncodeOption) :
  constructed o -> through_pointer o.
Proof. intros []; eexists; intros c m; reflexivity. Qed.

(** Called with [&cfg], an option that works through its pointer does
    not write [defaultEncodeConfig]. *)
Lemma through_pointer_default (o : EncodeOption) (m : ConfigMem) :
  through_pointer o ->
  var_defaultEncodeConfig (o addr_cfg m) = var_defaultEncodeConfig m.
Proof. intros [g Hg]. now rewrite Hg. Qed.

(** The options are applied one after the other, in slice order. *)
Lemma apply_options_snoc (options : list EncodeOption) (o : EncodeOption)
    (d : encodeConfig) :
  apply_options (options ++ [o]) d = o addr_cfg (apply_options options d).
Proof. unfold apply_options. now rewrite fold_left_app. Qed.

Lemma fold_options_default (options : list EncodeOption) (m : ConfigMem) :
  Forall through_pointer options ->
  var_defaultEncodeConfig (fold_left (fun m option => option addr_cfg m) options m)
  = var_defaultEncodeConfig m.
Proof.
  intros Hall. revert m.
  induction Hall as [|o options Ho _ IH]; intros m; simpl; [reflexivity|].
  now rewrite IH, through_pointer_default.
Qed.

(** Applying options that work through their pointer leaves
    [defaultEncodeConfig] as it was. *)
Lemma apply_options_default (options : list EncodeOption) (d : encodeConfig) :
  Forall through_pointer options ->
  var_defaultEncodeConfig (apply_options options d) = d.
Proof. intros Hall. unfold apply_options. now rewrite fold_options_default. Qed.

End OptionFacts.

(** C4. The options are applied in the order of the slice and the one
    applied last decides a field both set: after [Quality(50), Quality(90)]
    the configuration has Quality 90, after [Quality(90), Quality(50)] it
    has Quality 50, and so has the JPEG codec call of [Encode]; in
    general an option appended to a list is applied to the configuration
    the list produced, and a trailing [Quality(q)] leaves Quality q. *)
Theorem options_last_wins (draw_Quantizer draw_Drawer : Type) :
  (forall d : encodeConfig.t draw_Quantizer draw_Drawer,
     encodeConfig.Quality (var_cfg (apply_options [Quality 50; Quality 90] d)) = 90 /\
     encodeConfig.Quality (var_cfg (apply_options [Quality 90; Quality 50] d)) = 50) /\
  (forall (options : list (EncodeOption draw_Quantizer draw_Drawer)) o d,
     apply_options (options ++ [o]) d = o addr_cfg (apply_options options d)) /\
  (forall (options : list (EncodeOption draw_Quantizer draw_Drawer)) q d,
     encodeConfig.Quality (var_cfg (apply_options (options ++ [Quality q]) d)) = q) /\
  (forall (OtherImage Writer : Type)
          (codec : CodecCall draw_Quantizer draw_Drawer OtherImage ->
                   gmap positive (list Z) -> Writer -> Writer * run error)
          st w (m : OtherImage),
     Encode codec
       {| FormatOption.Format := JPEG;
          FormatOption.EncodeOption := [Quality 50; Quality 90] |}
       st w (other_image m)
     = invoke codec st w (jpeg_Encode (other_image m) {| jpeg.Quality := 90 |}) /\
     Encode codec
       {| FormatOption.Format := JPEG;
          FormatOption.EncodeOption := [Quality 90; Quality 50] |}
       st w (other_image m)
     = invoke codec st w (jpeg_Encode (other_image m) {| jpeg.Quality := 50 |})).
Proof.
  split; [intros d; split; reflexivity|].
  split; [intros options o d; apply apply_options_snoc|].
  split.
  - intros options q d. rewrite apply_options_snoc. reflexivity.
  - intros OtherImage Writer codec [d h] w m. split; reflexivity.
Qed.

(** ** [Encode] *)

Section EncodeFacts.
Context {draw_Quantizer draw_Drawer OtherImage Writer : Type}.
Variable codec :
  CodecCall draw_Quantizer draw_Drawer OtherImage ->
  gmap positive (list Z) -> Writer -> Writer * run error.
Local Abbreviation FormatOption := (FormatOption.t draw_Quantizer draw_Drawer).
Local Abbreviation State := (State draw_Quantizer draw_Drawer).

Lemma invoke_state (st : State) (w : Writer) c :
  state (invoke codec st w c) = st.
Proof. unfold invoke. now destruct (codec c (heap st) w). Qed.

Lemma Encode_state (f : FormatOption) (st : State) (w : Writer) img :
  state (Encode codec f st w img) = state_after f st.
Proof.
  unfold Encode, state_after.
  repeat case_match; try reflexivity; apply invoke_state.
Qed.

(** With options that work through their pointer [Encode] leaves the
    state as it found it. *)
Lemma Encode_state_through_pointer (f : FormatOption) (st : State) (w : Writer) img :
  Forall through_pointer (FormatOption.EncodeOption f) ->
  state (Encode codec f st w img) = st.
Proof.
  intros Hall. rewrite Encode_state. unfold state_after.
  rewrite apply_options_default by assumption. now destruct st.
Qed.

Lemma Encode_all_state
    (calls : list (FormatOption * Image OtherImage)) (st : State) (w : Writer) :
  Forall (fun c => Forall through_pointer (FormatOption.EncodeOption c.1)) calls ->
  (Encode_all codec calls st w).1 = st.
Proof.
  intros Hall. revert st w.
  induction Hall as [|[f img] calls Hf _ IH]; intros st w; simpl; [reflexivity|].
  rewrite IH. now apply Encode_state_through_pointer.
Qed.

(** C3. With no options, in a state where [defaultEncodeConfig] holds
    its initial value, [Encode] calls the codecs with the defaults: JPEG
    and PDF with Quality 75 (JPEG unless [Opaque] panics on a malformed
    NRGBA image), PNG with [png.DefaultCompression], GIF with 256
    colours, a nil quantizer and a nil drawer, TIFF with [tiff.LZW] and
    the predictor set; and for TIFF the predictor is set whatever the
    options. *)
Theorem Encode_defaults (st : State) (w : Writer) (img : Image OtherImage) :
  defaultEncodeConfig st = defaultEncodeConfig_init ->
  ((exists m,
      Encode codec {| FormatOption.Format := JPEG; FormatOption.EncodeOption := [] |}
        st w img
      = invoke codec st w (jpeg_Encode m {| jpeg.Quality := 75 |})) \/
   (exists n, img = NRGBA_ptr n /\ image.NRGBA.Opaque (heap st) n = Panics)) /\
  Encode codec {| FormatOption.Format := PDF; FormatOption.EncodeOption := [] |}
    st w img
  = invoke codec st w (pdf_Encode [img] {| pdf.Quality := 75 |}) /\
  Encode codec {| FormatOption.Format := PNG; FormatOption.EncodeOption := [] |}
    st w img
  = invoke codec st w
      (png_Encoder_Encode
         {| png.Encoder.CompressionLevel := png.DefaultCompression |} img) /\
  Encode codec {| FormatOption.Format := GIF; FormatOption.EncodeOption := [] |}
    st w img
  = invoke codec st w
      (gif_Encode img
         {| gif.NumColors := 256; gif.Quantizer := None; gif.Drawer := None |}) /\
  Encode codec {| FormatOption.Format := TIFF; FormatOption.EncodeOption := [] |}
    st w img
  = invoke codec st w
      (tiff_Encode img {| tiff.Compression := tiff.LZW; tiff.Predictor := true |}) /\
  (forall f : FormatOption,
     FormatOption.Format f = TIFF ->
     Encode codec f st w img
     = invoke codec (state_after f st) w
         (tiff_Encode img
            {| tiff.Compression :=
                 TIFFCompression_value
                   (encodeConfig.tiffCompressionType (cfg_after f st));
               tiff.Predictor := true |})).
Proof.
  intros Hd. destruct st as [d h]. simpl in Hd. subst d.
  split.
  { unfold Encode. simpl.
    destruct img as [n | r | m]; try (left; eexists; reflexivity).
    destruct (image.NRGBA.Opaque h n) as [|[]] eqn:Hop.
    - right. now exists n.
    - left. eexists. reflexivity.
    - left. eexists. reflexivity. }
  repeat split.
  intros f Hf. unfold Encode. rewrite Hf. reflexivity.
Qed.


(** C8. [Encode] works on a copy of [defaultEncodeConfig]: it starts
    [cfg] as a value copy and hands the options the pointer to that copy.
    The options of this package, and any option that reaches memory only
    through the pointer it is given, do not write [defaultEncodeConfig];
    so after any sequence of [Encode] calls with such options the state,
    and with it [defaultEncodeConfig], is what it was (Quality 75, 256
    colours, nil quantizer, nil drawer, [png.DefaultCompression], TIFFLZW
    if it held its initial value), and a further [Encode] behaves as it
    would have without the calls before it. *)
Theorem defaultEncodeConfig_isolated
    (calls : list (FormatOption * Image OtherImage)) (st : State) (w : Writer) :
  Forall (fun c => Forall through_pointer (FormatOption.EncodeOption c.1)) calls ->
  (forall d : encodeConfig.t draw_Quantizer draw_Drawer,
     apply_options [] d = {| var_defaultEncodeConfig := d; var_cfg := d |}) /\
  (forall o : EncodeOption draw_Quantizer draw_Drawer,
     constructed o -> through_pointer o) /\
  (forall (o : EncodeOption draw_Quantizer draw_Drawer) m,
     through_pointer o ->
     var_defaultEncodeConfig (o addr_cfg m) = var_defaultEncodeConfig m) /\
  (Encode_all codec calls st w).1 = st /\
  (defaultEncodeConfig st = defaultEncodeConfig_init ->
   defaultEncodeConfig (Encode_all codec calls st w).1
   = {| encodeConfig.Quality := 75;
        encodeConfig.gifNumColors := 256;
        encodeConfig.gifQuantizer := None;
        encodeConfig.gifDrawer := None;
        encodeConfig.pngCompressionLevel := png.DefaultCompression;
        encodeConfig.tiffCompressionType := TIFFLZW |}) /\
  (forall f w' img,
     Encode codec f (Encode_all codec calls st w).1 w' img
     = Encode codec f st w' img).
Proof.
  intros Hall. pose proof (Encode_all_state calls st w Hall) as Hst.
  split; [reflexivity|].
  split; [exact constructed_through_pointer|].
  split; [intros o m; apply through_pointer_default|].
  split; [exact Hst|].
  split.
  - intros Hd. now rewrite Hst, Hd.
  - intros f w' img. now rewrite Hst.
Qed.

End EncodeFacts.

Lemma Encode_defaults_witness :
  Encode (draw_Quantizer := unit) (draw_Drawer := unit) (OtherImage := unit)
    recording_codec
    {| FormatOption.Format := TIFF; FormatOption.EncodeOption := [] |}
    (initial_State ∅) [] (other_image tt)
  = invoke recording_codec (initial_State ∅) []
      (tiff_Encode (other_image tt)
         {| tiff.Compression := tiff.LZW; tiff.Predictor := true |}).
Proof.
  destruct (Encode_defaults (draw_Quantizer := unit) (draw_Drawer := unit)
              (OtherImage := unit) recording_codec (initial_State ∅) []
              (other_image tt) eq_refl) as (_ & _ & _ & _ & Htiff & _).
  exact Htiff.
Defined.

Lemma defaultEncodeConfig_isolated_witness :
  (Encode_all (draw_Quantizer := unit) (draw_Drawer := unit) (OtherImage := unit)
     recording_codec
     [({| FormatOption.Format := JPEG;
          FormatOption.EncodeOption := [Quality 50; GIFNumColors 16] |},
       other_image tt);
      ({| FormatOption.Format := TIFF;
          FormatOption.EncodeOption := [TIFFCompressionType TIFFDeflate] |},
       other_image tt)]
     (initial_State ∅) []).1
  = initial_State ∅.
Proof.
  refine (proj1 (proj2 (proj2 (proj2
    (defaultEncodeConfig_isolated (draw_Quantizer := unit)
       (draw_Drawer := unit) (OtherImage := unit) recording_codec _ _ _ _))))).
  repeat (constructor; try (apply constructed_through_pointer; constructor)).
Defined.

(** ** [NRGBA.Opaque] *)

Lemma wrap64_small (z : Z) : - 2 ^ 63 <= z < 2 ^ 63 -> wrap64 z = z.
Proof. intros Hz. unfold wrap64. rewrite Z.mod_small; lia. Qed.

Lemma wrap64_lt (z : Z) : wrap64 z < 2 ^ 63.
Proof.
  unfold wrap64.
  pose proof (Z.mod_pos_bound (z + 2 ^ 63) (2 ^ 64) ltac:(lia)). lia.
Qed.

Lemma wrap64_overflow (z : Z) : 2 ^ 63 <= z < 2 ^ 63 + 2 ^ 64 -> wrap64 z = z - 2 ^ 64.
Proof.
  intros Hz. unfold wrap64.
  replace (z + 2 ^ 63) with (z - 2 ^ 64 + 2 ^ 63 + 1 * 2 ^ 64) by lia.
  rewrite Z.mod_add by lia. rewrite Z.mod_small; lia.
Qed.

Section SliceFacts.
Variable h : gmap positive (list Z).
Variable pix : image.Slice.

Lemma index_range (i : Z) (a : Z) :
  image.index h pix i = Some a -> 0 <= i < Z.of_nat (image.len pix).
Proof.
  unfold image.index.
  destruct (Z.leb_spec 0 i), (Z.ltb_spec i (Z.of_nat (image.len pix)));
    simpl; intros; (lia || discriminate).
Qed.

Lemma index_is_Some (i : Z) :
  (exists elems, h !! image.array pix = Some elems /\
     (image.offset pix + image.len pix <= List.length elems)%nat) ->
  0 <= i < Z.of_nat (image.len pix) ->
  exists a, image.index h pix i = Some a.
Proof.
  intros (elems & Helems & Hlen) Hi. unfold image.index.
  destruct (Z.leb_spec 0 i); [|lia].
  destruct (Z.ltb_spec i (Z.of_nat (image.len pix))); [|lia].
  simpl. rewrite Helems.
  apply lookup_lt_is_Some_2. lia.
Qed.

(** The inner loop never runs out of the fuel [Opaque_scan] gives it:
    an iteration that goes on has read a byte, at an index that is in
    range and that the next index exceeds unless it wraps around, and
    then the next read panics. *)
Lemma Opaque_row_fuel (fuel : nat) (i i1 : Z) :
  i < 2 ^ 63 ->
  i < 0 \/ Z.of_nat (image.len pix) <= i \/
    Z.of_nat (image.len pix) - i < Z.of_nat fuel ->
  (0 < fuel)%nat ->
  image.NRGBA.Opaque_row fuel h pix i i1 <> None.
Proof.
  revert i. induction fuel as [|fuel IH]; intros i Hint Hi Hfuel; [lia|].
  simpl. destruct (i <? i1); [|discriminate].
  destruct (image.index h pix i) as [a|] eqn:Ha; [|discriminate].
  apply index_range in Ha.
  destruct (a =? 255); [|discriminate].
  assert (Hnext : wrap64 (i + 4) = i + 4 \/ wrap64 (i + 4) < 0).
  { destruct (Z.lt_ge_cases (i + 4) (2 ^ 63)).
    - left. apply wrap64_small. lia.
    - right. rewrite wrap64_overflow; lia. }
  apply IH; [apply wrap64_lt|lia|lia].
Qed.

Lemma Opaque_scan_fuel (i0 i1 : Z) :
  i0 < 2 ^ 63 ->
  image.NRGBA.Opaque_row (S (image.len pix)) h pix i0 i1 <> None.
Proof. intros Hi0. apply Opaque_row_fuel; lia. Qed.

(** More fuel does not change a result. *)
Lemma Opaque_row_fuel_mono (fuel fuel' : nat) (i i1 : Z) (r : run bool) :
  (fuel <= fuel')%nat ->
  image.NRGBA.Opaque_row fuel h pix i i1 = Some r ->
  image.NRGBA.Opaque_row fuel' h pix i i1 = Some r.
Proof.
  revert fuel' i. induction fuel as [|fuel IH]; intros fuel' i Hle; [discriminate|].
  destruct fuel' as [|fuel']; [lia|]. simpl.
  destruct (i <? i1); [|easy].
  destruct (image.index h pix i) as [a|]; [|easy].
  destruct (a =? 255); [|easy].
  apply IH. lia.
Qed.

(** So the inner loop has the result it has with any larger fuel. *)
Lemma Opaque_scan_enough (fuel : nat) (i0 i1 : Z) :
  i0 < 2 ^ 63 -> (S (image.len pix) <= fuel)%nat ->
  image.NRGBA.Opaque_row fuel h pix i0 i1
  = Some (image.NRGBA.Opaque_scan h pix i0 i1).
Proof.
  intros Hi0 Hfuel. unfold image.NRGBA.Opaque_scan.
  destruct (image.NRGBA.Opaque_row (S (image.len pix)) h pix i0 i1) as [r|] eqn:Hr.
  - now apply (Opaque_row_fuel_mono (S (image.len pix))).
  - now destruct (Opaque_scan_fuel i0 i1 Hi0).
Qed.

Hypothesis Harray :
  exists elems, h !! image.array pix = Some elems /\
    (image.offset pix + image.len pix <= List.length elems)%nat.
Hypothesis Hint : Z.of_nat (image.len pix) + 4 <= 2 ^ 63.

(** The inner loop over the pixels [x], ..., [W - 1] of a row that starts
    at byte [b] and lies within the slice: it returns, and it says
    [true] exactly when the alpha byte of each of these pixels is 255. *)
Lemma Opaque_row_spec (k fuel : nat) (b W x : Z) :
  0 <= b -> 0 <= x -> x + Z.of_nat k = W ->
  b + 4 * W <= Z.of_nat (image.len pix) ->
  (k < fuel)%nat ->
  exists res,
    image.NRGBA.Opaque_row fuel h pix (b + 4 * x + 3) (b + 4 * W) = Some (Returns res) /\
    (res = true <->
     forall x', x <= x' < W -> image.index h pix (b + 4 * x' + 3) = Some 255).
Proof.
  revert fuel x. induction k as [|k IH]; intros fuel x Hb Hx Hk Hlen Hfuel;
    (destruct fuel as [|fuel]; [lia|]); simpl.
  - destruct (Z.ltb_spec (b + 4 * x + 3) (b + 4 * W)); [lia|].
    exists true. split; [reflexivity|]. split; [|reflexivity]. intros _ x' Hx'. lia.
  - destruct (Z.ltb_spec (b + 4 * x + 3) (b + 4 * W)); [|lia].
    destruct (index_is_Some (b + 4 * x + 3) Harray) as [a Ha]; [lia|].
    rewrite Ha.
    destruct (Z.eqb_spec a 255) as [-> | Hne].
    + replace (wrap64 (b + 4 * x + 3 + 4)) with (b + 4 * (x + 1) + 3)
        by (rewrite wrap64_small; lia).
      destruct (IH fuel (x + 1)) as (res & Hres & Hiff); try lia.
      exists res. split; [exact Hres|]. rewrite Hiff. split.
      * intros Hall x' Hx'.
        destruct (Z.eq_dec x' x) as [-> | Hne]; [exact Ha|apply Hall; lia].
      * intros Hall x' Hx'. apply Hall. lia.
    + exists false. split; [reflexivity|]. split; [discriminate|].
      intros Hall. specialize (Hall x ltac:(lia)). congruence.
Qed.

Lemma Opaque_scan_spec (b W : Z) :
  0 <= b -> 0 <= W -> b + 4 * W <= Z.of_nat (image.len pix) ->
  exists res,
    image.NRGBA.Opaque_scan h pix (b + 3) (b + 4 * W) = Returns res /\
    (res = true <->
     forall x', 0 <= x' < W -> image.index h pix (b + 4 * x' + 3) = Some 255).
Proof.
  intros Hb HW Hlen.
  destruct (Opaque_row_spec (Z.to_nat W) (S (image.len pix)) b W 0)
    as (res & Hres & Hiff); try lia.
  exists res. split; [|exact Hiff].
  unfold image.NRGBA.Opaque_scan.
  replace (b + 3) with (b + 4 * 0 + 3) by lia. now rewrite Hres.
Qed.

(** The outer loop over the rows [k], ..., [H - 1] of an image of [H]
    rows of [W] pixels. *)
Lemma Opaque_rows_spec (r : nat) (stride W H k i0 i1 : Z) :
  0 < W -> 4 * W <= stride -> 0 <= k -> k + Z.of_nat r = H ->
  (H - 1) * stride + 4 * W <= Z.of_nat (image.len pix) ->
  ((0 < r)%nat -> i0 = k * stride + 3 /\ i1 = k * stride + 4 * W) ->
  exists res,
    image.NRGBA.Opaque_rows r h pix stride i0 i1 = Returns res /\
    (res = true <->
     forall k' x', k <= k' < H -> 0 <= x' < W ->
       image.index h pix (k' * stride + 4 * x' + 3) = Some 255).
Proof.
  intros HW Hstride. revert k i0 i1.
  induction r as [|r IH]; intros k i0 i1 Hk Hr Hlen Hi; simpl.
  - exists true. split; [reflexivity|]. split; [|reflexivity]. intros _ k' x' Hk'. lia.
  - destruct (Hi ltac:(lia)) as [-> ->].
    destruct (Opaque_scan_spec (k * stride) W) as (res & Hres & Hiff);
      [nia|lia|nia|].
    rewrite Hres. destruct res.
    + destruct (IH (k + 1) (wrap64 (k * stride + 3 + stride))
                  (wrap64 (k * stride + 4 * W + stride)))
        as (res' & Hres' & Hiff'); [lia|lia|exact Hlen| |].
      { intros Hr'. split; rewrite wrap64_small; nia. }
      exists res'. split; [exact Hres'|]. rewrite Hiff'. split.
      * intros Hall k' x' Hk' Hx'.
        destruct (Z.eq_dec k' k) as [-> | Hne];
          [now apply Hiff|apply Hall; lia].
      * intros Hall k' x' Hk' Hx'. apply Hall; lia.
    + exists false. split; [reflexivity|]. split; [discriminate|].
      intros Hall. apply Hiff. intros x' Hx'. apply Hall; lia.
Qed.

End SliceFacts.

(** On a well-formed image [Opaque] returns, and it returns [true]
    exactly when the alpha byte of every pixel of the image is 255. *)
Lemma Opaque_spec (h : gmap positive (list Z)) (p : image.NRGBA.t) :
  image.NRGBA.well_formed h p ->
  exists res,
    image.NRGBA.Opaque h p = Returns res /\
    (res = true <->
     forall x y, image.NRGBA.In_Rect p x y ->
       image.NRGBA.alpha_at h p x y = Some 255).
Proof.
  intros [Hstride Hlen Hint Harray]. unfold image.NRGBA.Opaque, image.Rectangle_Empty.
  unfold image.NRGBA.In_Rect, image.NRGBA.alpha_at, image.NRGBA.PixOffset.
  destruct p as [pix stride [[x0 y0] [x1 y1]]]. simpl in *.
  destruct (Z.geb_spec x0 x1) as [Hx | Hx]; simpl.
  { exists true. split; [reflexivity|]. split; [|reflexivity]. intros _ x y. lia. }
  destruct (Z.geb_spec y0 y1) as [Hy | Hy]; simpl.
  { exists true. split; [reflexivity|]. split; [|reflexivity]. intros _ x y. lia. }
  specialize (Hlen ltac:(lia) ltac:(lia)).
  assert (Hrows : (y1 - y0 - 1) * stride >= 0) by nia.
  destruct (Opaque_rows_spec h pix Harray Hint (Z.to_nat (y1 - y0)) stride
              (x1 - x0) (y1 - y0) 0 3
              (wrap64 (image.Rectangle_Dx
                         {| image.Min := {| image.X := x0; image.Y := y0 |};
                            image.Max := {| image.X := x1; image.Y := y1 |} |} * 4)))
    as (res & Hres & Hiff); try lia.
  { intros _. split; [lia|]. unfold image.Rectangle_Dx. simpl.
    rewrite (wrap64_small (x1 - x0)) by lia. rewrite wrap64_small; lia. }
  exists res. split; [exact Hres|]. rewrite Hiff. split.
  - intros Hall x y [Hx' Hy'].
    replace ((y - y0) * stride + (x - x0) * 4 + 3)
      with ((y - y0) * stride + 4 * (x - x0) + 3) by lia.
    apply Hall; lia.
  - intros Hall k' x' Hk' Hx'.
    specialize (Hall (x0 + x') (y0 + k') ltac:(lia)).
    replace ((y0 + k' - y0) * stride + (x0 + x' - x0) * 4 + 3)
      with (k' * stride + 4 * x' + 3) in Hall by lia.
    exact Hall.
Qed.

Example Opaque_sample_opaque :
  image.NRGBA.Opaque sample_opaque_heap sample_NRGBA = Returns true.
Proof. reflexivity. Qed.

Example Opaque_sample_translucent :
  image.NRGBA.Opaque sample_translucent_heap sample_NRGBA = Returns false.
Proof. reflexivity. Qed.

(** A pixel slice shorter than the rectangle needs: the read past its end
    panics. *)
Example Opaque_short_slice :
  image.NRGBA.Opaque sample_opaque_heap
    {| image.NRGBA.Pix :=
         {| image.array := 1%positive; image.offset := 0%nat;
            image.len := 4%nat; image.cap := 8%nat |};
       image.NRGBA.Stride := 8;
       image.NRGBA.Rect := image.NRGBA.Rect sample_NRGBA |}
  = Panics.
Proof. reflexivity. Qed.

(** ** The JPEG path of [Encode] and unsupported formats *)

Section EncodeJPEG.
Context {draw_Quantizer draw_Drawer OtherImage Writer : Type}.
Variable codec :
  CodecCall draw_Quantizer draw_Drawer OtherImage ->
  gmap positive (list Z) -> Writer -> Writer * run error.
Variable f : FormatOption.t draw_Quantizer draw_Drawer.
Variable st : State draw_Quantizer draw_Drawer.
Variable w : Writer.
Hypothesis HJPEG : FormatOption.Format f = JPEG.

Lemma Encode_JPEG_Opaque (n : image.NRGBA.t) :
  image.NRGBA.Opaque (heap st) n = Returns true ->
  Encode codec f st w (NRGBA_ptr n)
  = invoke codec (state_after f st) w
      (jpeg_Encode
         (RGBA_ptr {| image.RGBA.Pix := image.NRGBA.Pix n;
                      image.RGBA.Stride := image.NRGBA.Stride n;
                      image.RGBA.Rect := image.NRGBA.Rect n |})
         {| jpeg.Quality := encodeConfig.Quality (cfg_after f st) |}).
Proof. intros Hop. unfold Encode. rewrite HJPEG. simpl. now rewrite Hop. Qed.

Lemma Encode_JPEG_not_Opaque (n : image.NRGBA.t) :
  image.NRGBA.Opaque (heap st) n = Returns false ->
  Encode codec f st w (NRGBA_ptr n)
  = invoke codec (state_after f st) w
      (jpeg_Encode (NRGBA_ptr n)
         {| jpeg.Quality := encodeConfig.Quality (cfg_after f st) |}).
Proof. intros Hop. unfold Encode. rewrite HJPEG. simpl. now rewrite Hop. Qed.

Lemma Encode_JPEG_not_NRGBA (img : Image OtherImage) :
  (forall n, img <> NRGBA_ptr n) ->
  Encode codec f st w img
  = invoke codec (state_after f st) w
      (jpeg_Encode img
         {| jpeg.Quality := encodeConfig.Quality (cfg_after f st) |}).
Proof.
  intros Hnot. unfold Encode. rewrite HJPEG. simpl.
  destruct img as [n | r | m]; [now destruct (Hnot n)|reflexivity|reflexivity].
Qed.

End EncodeJPEG.

(** C1. For the format JPEG, [Encode] hands the JPEG codec an
    [image.RGBA] with the [Pix] slice, the [Stride] and the [Rect] of the
    input exactly when the input is an [image.NRGBA] on which [Opaque]
    returns true, which for a well-formed image is when the alpha byte
    of every pixel is 255; when [Opaque] returns false (a well-formed
    image with a pixel whose alpha byte is not 255), or when the input
    is not an [image.NRGBA], the codec gets the input itself.  The heap
    of pixel arrays is the same after the call. *)
Theorem Encode_JPEG_opaque_view
    (draw_Quantizer draw_Drawer OtherImage Writer : Type)
    (codec : CodecCall draw_Quantizer draw_Drawer OtherImage ->
             gmap positive (list Z) -> Writer -> Writer * run error)
    (f : FormatOption.t draw_Quantizer draw_Drawer)
    (st : State draw_Quantizer draw_Drawer) (w : Writer) :
  FormatOption.Format f = JPEG ->
  let view n :=
    RGBA_ptr {| image.RGBA.Pix := image.NRGBA.Pix n;
                image.RGBA.Stride := image.NRGBA.Stride n;
                image.RGBA.Rect := image.NRGBA.Rect n |} in
  let jpeg m :=
    invoke codec (state_after f st) w
      (jpeg_Encode m {| jpeg.Quality := encodeConfig.Quality (cfg_after f st) |}) in
  (forall n,
     image.NRGBA.Opaque (heap st) n = Returns true ->
     Encode codec f st w (NRGBA_ptr n) = jpeg (view n)) /\
  (forall n,
     image.NRGBA.Opaque (heap st) n = Returns false ->
     Encode codec f st w (NRGBA_ptr n) = jpeg (NRGBA_ptr n)) /\
  (forall n,
     image.NRGBA.well_formed (heap st) n ->
     (forall x y, image.NRGBA.In_Rect n x y ->
        image.NRGBA.alpha_at (heap st) n x y = Some 255) ->
     Encode codec f st w (NRGBA_ptr n) = jpeg (view n)) /\
  (forall n,
     image.NRGBA.well_formed (heap st) n ->
     (exists x y, image.NRGBA.In_Rect n x y /\
        image.NRGBA.alpha_at (heap st) n x y <> Some 255) ->
     Encode codec f st w (NRGBA_ptr n) = jpeg (NRGBA_ptr n)) /\
  (forall img,
     (forall n, img <> NRGBA_ptr n) ->
     Encode codec f st w img = jpeg img) /\
  (forall img, heap (state (Encode codec f st w img)) = heap st).
Proof.
  intros HJPEG view jpeg. subst view jpeg. cbv beta.
  split; [intros n; now apply Encode_JPEG_Opaque|].
  split; [intros n; now apply Encode_JPEG_not_Opaque|].
  split; [|split; [|split]].
  - intros n Hwf Hall.
    destruct (Opaque_spec (heap st) n Hwf) as (res & Hres & Hiff).
    apply Encode_JPEG_Opaque; [assumption|].
    rewrite Hres. f_equal. now apply Hiff.
  - intros n Hwf (x & y & Hin & Halpha).
    destruct (Opaque_spec (heap st) n Hwf) as (res & Hres & Hiff).
    apply Encode_JPEG_not_Opaque; [assumption|].
    rewrite Hres. f_equal. destruct res; [|reflexivity].
    exfalso. apply Halpha. now apply Hiff.
  - intros img. now apply Encode_JPEG_not_NRGBA.
  - intros img. now rewrite Encode_state.
Qed.

Lemma sample_NRGBA_well_formed (h : gmap positive (list Z)) (elems : list Z) :
  h !! 1%positive = Some elems -> List.length elems = 8%nat ->
  image.NRGBA.well_formed h sample_NRGBA.
Proof.
  intros Hh Hlen. unfold sample_NRGBA. split; simpl; try lia.
  exists elems. split; [exact Hh|]. lia.
Qed.

Lemma Encode_JPEG_opaque_view_witness :
  Encode (draw_Quantizer := unit) (draw_Drawer := unit) (OtherImage := unit)
    recording_codec
    {| FormatOption.Format := JPEG; FormatOption.EncodeOption := [Quality 90] |}
    (initial_State sample_opaque_heap) [] (NRGBA_ptr sample_NRGBA)
  = {| state := initial_State sample_opaque_heap;
       sink :=
         [jpeg_Encode
            (RGBA_ptr {| image.RGBA.Pix := image.NRGBA.Pix sample_NRGBA;
                         image.RGBA.Stride := 8;
                         image.RGBA.Rect := image.NRGBA.Rect sample_NRGBA |})
            {| jpeg.Quality := 90 |}];
       ret := Returns None |} /\
  Encode (draw_Quantizer := unit) (draw_Drawer := unit) (OtherImage := unit)
    recording_codec
    {| FormatOption.Format := JPEG; FormatOption.EncodeOption := [Quality 90] |}
    (initial_State sample_translucent_heap) [] (NRGBA_ptr sample_NRGBA)
  = {| state := initial_State sample_translucent_heap;
       sink := [jpeg_Encode (NRGBA_ptr sample_NRGBA) {| jpeg.Quality := 90 |}];
       ret := Returns None |}.
Proof.
  split.
  - refine (proj1 (proj2 (proj2
      (Encode_JPEG_opaque_view unit unit unit _ recording_codec
         {| FormatOption.Format := JPEG;
            FormatOption.EncodeOption := [Quality 90] |}
         (initial_State sample_opaque_heap) [] eq_refl))) sample_NRGBA _ _).
    + now apply (sample_NRGBA_well_formed _ [10; 20; 30; 255; 40; 50; 60; 255]).
    + intros x y [Hx Hy]. unfold sample_NRGBA in Hx, Hy. simpl in Hx, Hy.
      assert (y = 0) as -> by lia.
      assert (x = 0 \/ x = 1) as [-> | ->] by lia; reflexivity.
  - refine (proj1 (proj2 (proj2 (proj2
      (Encode_JPEG_opaque_view unit unit unit _ recording_codec
         {| FormatOption.Format := JPEG;
            FormatOption.EncodeOption := [Quality 90] |}
         (initial_State sample_translucent_heap) [] eq_refl)))) sample_NRGBA _ _).
    + now apply (sample_NRGBA_well_formed _ [10; 20; 30; 255; 40; 50; 60; 254]).
    + exists 1, 0. split; [unfold image.NRGBA.In_Rect, sample_NRGBA; simpl; lia|].
      vm_compute. discriminate.
Defined.

(** For a format of the registry [Encode] ends in a codec call, unless
    [Opaque] panics first. *)
Lemma Encode_reaches_codec (draw_Quantizer draw_Drawer OtherImage : Type)
    (f : FormatOption.t draw_Quantizer draw_Drawer)
    (st : State draw_Quantizer draw_Drawer) (img : Image OtherImage) :
  FormatOption.Format f ∈ [JPEG; PNG; GIF; TIFF; BMP; PDF] ->
  (exists c,
     forall (Writer : Type)
            (codec : CodecCall draw_Quantizer draw_Drawer OtherImage ->
                     gmap positive (list Z) -> Writer -> Writer * run error)
            (w : Writer),
       Encode codec f st w img = invoke codec (state_after f st) w c) \/
  (FormatOption.Format f = JPEG /\
   exists n, img = NRGBA_ptr n /\ image.NRGBA.Opaque (heap st) n = Panics).
Proof.
  intros Hin.
  apply elem_of_cons in Hin as [HF | Hin].
  { destruct img as [n | r | m].
    - destruct (image.NRGBA.Opaque (heap st) n) as [|[]] eqn:Hop.
      + right. split; [exact HF|]. now exists n.
      + left. eexists. intros Writer codec w. now apply Encode_JPEG_Opaque.
      + left. eexists. intros Writer codec w. now apply Encode_JPEG_not_Opaque.
    - left. eexists. intros Writer codec w. now apply Encode_JPEG_not_NRGBA.
    - left. eexists. intros Writer codec w. now apply Encode_JPEG_not_NRGBA. }
  left.
  repeat (apply elem_of_cons in Hin as [HF | Hin];
          [eexists; intros Writer codec w; unfold Encode; rewrite HF; reflexivity|]).
  inversion Hin.
Qed.

(** For any other format [Encode] falls through the switch. *)
Lemma Encode_fallthrough (draw_Quantizer draw_Drawer OtherImage Writer : Type)
    (codec : CodecCall draw_Quantizer draw_Drawer OtherImage ->
             gmap positive (list Z) -> Writer -> Writer * run error)
    (f : FormatOption.t draw_Quantizer draw_Drawer)
    (st : State draw_Quantizer draw_Drawer) (w : Writer) (img : Image OtherImage) :
  FormatOption.Format f ∉ [JPEG; PNG; GIF; TIFF; BMP; PDF] ->
  Encode codec f st w img
  = {| state := state_after f st; sink := w;
       ret := Returns (errors_New "unsupported image format") |}.
Proof.
  intros Hnin. unfold Encode.
  repeat match goal with
         | |- context [FormatOption.Format f =? ?k] =>
             destruct (Z.eqb_spec (FormatOption.Format f) k) as [Heq | _];
             [exfalso; apply Hnin; rewrite Heq; set_solver|]
         end.
  reflexivity.
Qed.

Section OrNilFacts.
Context {draw_Quantizer draw_Drawer : Type}.
Local Abbreviation EncodeOption := (EncodeOption draw_Quantizer draw_Drawer).

Lemma has_nil_true (options : list (option EncodeOption)) :
  has_nil options = true <-> None ∈ options.
Proof.
  induction options as [|[o|] options IH]; simpl.
  - split; [discriminate|]. intros H. inversion H.
  - rewrite IH. split.
    + intros H. now apply elem_of_cons; right.
    + intros [H | H]%elem_of_cons; [discriminate|exact H].
  - split; [|reflexivity]. intros _. apply elem_of_cons. now left.
Qed.

Lemma has_nil_false (options : list (option EncodeOption)) :
  has_nil options = false <-> None ∉ options.
Proof.
  rewrite <- has_nil_true. destruct (has_nil options); split; congruence.
Qed.

End OrNilFacts.

Section EncodeOrNilFacts.
Context {draw_Quantizer draw_Drawer OtherImage Writer : Type}.
Variable codec :
  CodecCall draw_Quantizer draw_Drawer OtherImage ->
  gmap positive (list Z) -> Writer -> Writer * run error.
Variable f : FormatOption_or_nil.t draw_Quantizer draw_Drawer.
Variable st : State draw_Quantizer draw_Drawer.
Variable w : Writer.
Variable img : Image OtherImage.

Lemma Encode_or_nil_no_nil :
  None ∉ FormatOption_or_nil.EncodeOption f ->
  Encode_or_nil codec f st w img
  = Encode codec (FormatOption_or_nil.called f) st w img.
Proof. intros Hnil%has_nil_false. unfold Encode_or_nil. now rewrite Hnil. Qed.

Lemma Encode_or_nil_nil :
  None ∈ FormatOption_or_nil.EncodeOption f ->
  Encode_or_nil codec f st w img
  = {| state := state_after (FormatOption_or_nil.called f) st;
       sink := w;
       ret := Panics |}.
Proof. intros Hnil%has_nil_true. unfold Encode_or_nil. now rewrite Hnil. Qed.

End EncodeOrNilFacts.

(** C5. [Encode] reaches a codec exactly for the six formats.  On a
    [FormatOption] none of whose options is nil: for JPEG, PNG, GIF,
    TIFF, BMP and PDF it makes one codec call, the same whatever the
    codec and the writer (JPEG unless [Opaque] panics on a malformed
    NRGBA image); for every other value of the [Format] field, -1 and 6
    among them, it calls no codec, leaves the writer as it was and
    returns the error "unsupported image format".  A nil option makes the
    option loop panic before the switch, for any format, with the writer
    as it was; so for a format outside the six the writer is never
    written. *)
Theorem Encode_or_nil_unsupported (draw_Quantizer draw_Drawer OtherImage : Type)
    (f : FormatOption_or_nil.t draw_Quantizer draw_Drawer)
    (st : State draw_Quantizer draw_Drawer) (img : Image OtherImage) :
  (None ∉ FormatOption_or_nil.EncodeOption f ->
   FormatOption_or_nil.Format f ∈ [JPEG; PNG; GIF; TIFF; BMP; PDF] ->
   (exists c,
      forall (Writer : Type)
             (codec : CodecCall draw_Quantizer draw_Drawer OtherImage ->
                      gmap positive (list Z) -> Writer -> Writer * run error)
             (w : Writer),
        Encode_or_nil codec f st w img
        = invoke codec (state_after (FormatOption_or_nil.called f) st) w c) \/
   (FormatOption_or_nil.Format f = JPEG /\
    exists n, img = NRGBA_ptr n /\ image.NRGBA.Opaque (heap st) n = Panics)) /\
  (None ∉ FormatOption_or_nil.EncodeOption f ->
   FormatOption_or_nil.Format f ∉ [JPEG; PNG; GIF; TIFF; BMP; PDF] ->
   forall (Writer : Type)
          (codec : CodecCall draw_Quantizer draw_Drawer OtherImage ->
                   gmap positive (list Z) -> Writer -> Writer * run error)
          (w : Writer),
     Encode_or_nil codec f st w img
     = {| state := state_after (FormatOption_or_nil.called f) st; sink := w;
          ret := Returns (errors_New "unsupported image format") |}) /\
  (None ∈ FormatOption_or_nil.EncodeOption f ->
   forall (Writer : Type)
          (codec : CodecCall draw_Quantizer draw_Drawer OtherImage ->
                   gmap positive (list Z) -> Writer -> Writer * run error)
          (w : Writer),
     Encode_or_nil codec f st w img
     = {| state := state_after (FormatOption_or_nil.called f) st; sink := w;
          ret := Panics |}) /\
  (FormatOption_or_nil.Format f ∉ [JPEG; PNG; GIF; TIFF; BMP; PDF] ->
   forall (Writer : Type)
          (codec : CodecCall draw_Quantizer draw_Drawer OtherImage ->
                   gmap positive (list Z) -> Writer -> Writer * run error)
          (w : Writer),
     sink (Encode_or_nil codec f st w img) = w) /\
  (forall (Writer : Type)
          (codec : CodecCall draw_Quantizer draw_Drawer OtherImage ->
                   gmap positive (list Z) -> Writer -> Writer * run error)
          (w : Writer) options,
     None ∉ options ->
     ret (Encode_or_nil codec
            {| FormatOption_or_nil.Format := -1;
               FormatOption_or_nil.EncodeOption := options |} st w img)
     = Returns (errors_New "unsupported image format") /\
     ret (Encode_or_nil codec
            {| FormatOption_or_nil.Format := 6;
               FormatOption_or_nil.EncodeOption := options |} st w img)
     = Returns (errors_New "unsupported image format")).
Proof.
  split; [|split; [|split; [|split]]].
  - intros Hnil Hin.
    destruct (Encode_reaches_codec _ _ _ (FormatOption_or_nil.called f) st img Hin)
      as [[c Hc] | Hpanic]; [left|right; exact Hpanic].
    exists c. intros Writer codec w.
    rewrite Encode_or_nil_no_nil by assumption. apply Hc.
  - intros Hnil Hnin Writer codec w.
    rewrite Encode_or_nil_no_nil by assumption.
    now apply Encode_fallthrough.
  - intros Hnil Writer codec w. now apply Encode_or_nil_nil.
  - intros Hnin Writer codec w.
    destruct (has_nil (FormatOption_or_nil.EncodeOption f)) eqn:Hnil.
    + apply has_nil_true in Hnil. now rewrite Encode_or_nil_nil.
    + apply has_nil_false in Hnil. rewrite Encode_or_nil_no_nil by assumption.
      now rewrite Encode_fallthrough.
  - intros Writer codec w options Hnil.
    split; (rewrite Encode_or_nil_no_nil by assumption;
            rewrite Encode_fallthrough; [reflexivity|];
            simpl; apply (bool_decide_unpack _); vm_compute; exact I).
Qed.

(** With a nil option, here for the format 6, [Encode] panics instead of
    returning the error. *)
Example Encode_or_nil_nil_option :
  Encode_or_nil (draw_Quantizer := unit) (draw_Drawer := unit) (OtherImage := unit)
    recording_codec
    {| FormatOption_or_nil.Format := 6;
       FormatOption_or_nil.EncodeOption := [None] |}
    (initial_State ∅) [] (other_image tt)
  = {| state := initial_State ∅; sink := []; ret := Panics |}.
Proof. reflexivity. Qed.

(** * Further properties *)

(** ** The registry, both ways *)

Lemma formatExts_keys (f : Format) :
  is_Some (formatExts !! f) <-> f ∈ [JPEG; PNG; GIF; TIFF; BMP; PDF].
Proof.
  split.
  - intros [v Hv%formatExts_lookup].
    apply (list_elem_of_fmap_2 fst) in Hv. exact Hv.
  - intros Hf.
    change (f ∈ [(JPEG, "jpg"); (PNG, "png"); (GIF, "gif");
                 (TIFF, "tif"); (BMP, "bmp"); (PDF, "pdf")]%string.*1) in Hf.
    apply list_elem_of_fmap in Hf as [[k v] [Hk Hin]]. simpl in Hk. subst k.
    exists v. now apply formatExts_lookup.
Qed.

Lemma formatExts_length (k : Format) (v : string) :
  formatExts !! k = Some v -> String.length v = 3%nat.
Proof.
  intros Hk%formatExts_lookup.
  repeat (apply elem_of_cons in Hk as [Hk | Hk];
          [now injection Hk as -> ->|]).
  inversion Hk.
Qed.

Lemma map_bytes_length (g : ascii -> ascii) (s : string) :
  String.length (map_bytes g s) = String.length s.
Proof. induction s as [|c s IH]; simpl; [reflexivity|now rewrite IH]. Qed.

Lemma StringOfFormat_registered (k : Format) (v : string) :
  formatExts !! k = Some v -> StringOfFormat k = (v, None).
Proof. intros Hk. unfold StringOfFormat. now rewrite Hk. Qed.

(** X1. [StringOfFormat] returns the registered extension, three bytes
    long, with a nil error for the six formats, and the empty string with
    the error "no such format" for every other integer. *)
Theorem StringOfFormat_total (f : Format) :
  (f ∈ [JPEG; PNG; GIF; TIFF; BMP; PDF] ->
   exists str, StringOfFormat f = (str, None) /\
     formatExts !! f = Some str /\ String.length str = 3%nat) /\
  (f ∉ [JPEG; PNG; GIF; TIFF; BMP; PDF] ->
   StringOfFormat f = (""%string, errors_New "no such format")).
Proof.
  split.
  - intros [str Hstr]%formatExts_keys. exists str.
    unfold StringOfFormat. rewrite Hstr.
    split; [reflexivity|]. split; [reflexivity|]. now apply (formatExts_length f).
  - intros Hnin. unfold StringOfFormat.
    destruct (formatExts !! f) as [str|] eqn:Hstr; [|reflexivity].
    exfalso. apply Hnin, formatExts_keys. now exists str.
Qed.

(** X2. When [FormatFromExtension] succeeds, [StringOfFormat] of the
    format it returned is the lower-cased input, with a nil error. *)
Theorem StringOfFormat_FormatFromExtension (U : string -> string)
    (order : list (Format * string)) (ext : string) :
  range_order formatExts order ->
  (FormatFromExtension U order ext).2 = None ->
  StringOfFormat (FormatFromExtension U order ext).1 = (ToLower U ext, None).
Proof.
  intros Horder Hnil.
  destruct (formatExts_registered_dec (ToLower U ext)) as [[k Hk] | Hnone].
  - rewrite (FormatFromExtension_registered U order Horder ext k Hk). cbn [fst].
    now apply StringOfFormat_registered.
  - rewrite (FormatFromExtension_unregistered U order Horder ext Hnone) in Hnil.
    discriminate Hnil.
Qed.

Lemma StringOfFormat_FormatFromExtension_witness :
  StringOfFormat (FormatFromExtension (fun s => s) (map_to_list formatExts) "GIF").1
  = (ToLower (fun s => s) "GIF", None).
Proof.
  apply (StringOfFormat_FormatFromExtension (fun s => s)
           (map_to_list formatExts) "GIF").
  - apply Permutation_refl.
  - reflexivity.
Defined.

(** X3. The format [FormatFromExtension] returns is -1 exactly when it
    returns an error, and one of the six formats otherwise; the -1 of a
    failed call is accepted neither by [StringOfFormat] nor, with options
    none of which is nil, by [Encode]. *)
Theorem FormatFromExtension_sentinel (U : string -> string)
    (order : list (Format * string)) (ext : string) :
  range_order formatExts order ->
  ((FormatFromExtension U order ext).1 = -1 <->
   (FormatFromExtension U order ext).2 <> None) /\
  ((FormatFromExtension U order ext).2 = None ->
   (FormatFromExtension U order ext).1 ∈ [JPEG; PNG; GIF; TIFF; BMP; PDF]) /\
  ((FormatFromExtension U order ext).2 <> None ->
   StringOfFormat (FormatFromExtension U order ext).1
   = (""%string, errors_New "no such format") /\
   forall (draw_Quantizer draw_Drawer OtherImage Writer : Type)
          (codec : CodecCall draw_Quantizer draw_Drawer OtherImage ->
                   gmap positive (list Z) -> Writer -> Writer * run error)
          options st w img,
     None ∉ options ->
     ret (Encode_or_nil codec
            {| FormatOption_or_nil.Format := (FormatFromExtension U order ext).1;
               FormatOption_or_nil.EncodeOption := options |} st w img)
     = Returns (errors_New "unsupported image format")).
Proof.
  intros Horder.
  destruct (formatExts_registered_dec (ToLower U ext)) as [[k Hk] | Hnone].
  - rewrite (FormatFromExtension_registered U order Horder ext k Hk). simpl.
    assert (Hin : k ∈ [JPEG; PNG; GIF; TIFF; BMP; PDF])
      by (apply formatExts_keys; eauto).
    split; [|split].
    + split; [|congruence]. intros ->. exfalso. revert Hin.
      apply (bool_decide_unpack _). vm_compute. exact I.
    + intros _. exact Hin.
    + congruence.
  - rewrite (FormatFromExtension_unregistered U order Horder ext Hnone). simpl.
    split; [|split].
    + split; [discriminate|reflexivity].
    + discriminate.
    + intros _. split; [reflexivity|].
      intros draw_Quantizer draw_Drawer OtherImage Writer codec options st w img Hnil.
      rewrite Encode_or_nil_no_nil by assumption.
      rewrite Encode_fallthrough; [reflexivity|].
      simpl. apply (bool_decide_unpack _). vm_compute. exact I.
Qed.

Lemma FormatFromExtension_sentinel_witness :
  (FormatFromExtension (fun s => s) (map_to_list formatExts) "webp").1 = -1 <->
  (FormatFromExtension (fun s => s) (map_to_list formatExts) "webp").2 <> None.
Proof.
  apply (FormatFromExtension_sentinel (fun s => s) (map_to_list formatExts) "webp").
  apply Permutation_refl.
Defined.

(** X4. An ASCII-only input that is not exactly three bytes long, such as
    the empty string or an extension with its leading dot, is rejected
    by [FormatFromExtension] with the format -1 and the error
    "unsupported image format". *)
Theorem FormatFromExtension_three_bytes (U : string -> string)
    (order : list (Format * string)) (ext : string) :
  range_order formatExts order ->
  all_bytes is_ascii_byte ext = true ->
  String.length ext <> 3%nat ->
  FormatFromExtension U order ext = (-1, errors_New "unsupported image format").
Proof.
  intros Horder Hascii Hlen.
  apply FormatFromExtension_unregistered; [assumption|].
  intros k Hk%formatExts_length.
  rewrite (ToLower_ascii U ext Hascii), map_bytes_length in Hk. contradiction.
Qed.

Lemma FormatFromExtension_three_bytes_witness :
  FormatFromExtension (fun s => s) (map_to_list formatExts) ".jpg"
  = (-1, errors_New "unsupported image format") /\
  FormatFromExtension (fun s => s) (map_to_list formatExts) ""
  = (-1, errors_New "unsupported image format").
Proof.
  split.
  - apply (FormatFromExtension_three_bytes (fun s => s) (map_to_list formatExts) ".jpg");
      [apply Permutation_refl|reflexivity|simpl; lia].
  - apply (FormatFromExtension_three_bytes (fun s => s) (map_to_list formatExts) "");
      [apply Permutation_refl|reflexivity|simpl; lia].
Defined.

(** ** [setFormat] *)

Section SetFormatFacts.
Context {draw_Quantizer draw_Drawer : Type}.
Variable U : string -> string.
Variable order : list (Format * string).
Hypothesis Horder : range_order formatExts order.
Local Abbreviation EncodeOption := (EncodeOption draw_Quantizer draw_Drawer).

Lemma setFormat_registered (filename : string) (options : list EncodeOption)
    (F : Format) :
  formatExts !! F = Some (ToLower U filename) ->
  setFormat U order filename options
  = ({| FormatOption.Format := F; FormatOption.EncodeOption := options |}, None).
Proof.
  intros HF. unfold setFormat.
  now rewrite (FormatFromExtension_registered U order Horder filename F HF).
Qed.

Lemma setFormat_unregistered (filename : string) (options : list EncodeOption) :
  (forall k, formatExts !! k <> Some (ToLower U filename)) ->
  setFormat U order filename options
  = ({| FormatOption.Format := JPEG; FormatOption.EncodeOption := [] |},
     errors_New "unsupported image format").
Proof.
  intros Hnone. unfold setFormat.
  now rewrite (FormatFromExtension_unregistered U order Horder filename Hnone).
Qed.

End SetFormatFacts.

(** X5. [setFormat] succeeds exactly when the lower-cased file name is
    one of the six registered extensions; it then returns the format
    registered under it together with the options it was given,
    unchanged and in order.  Otherwise it returns the error "unsupported
    image format" and the zero [FormatOption], whose format is 0, that is
    JPEG, and whose option list is empty. *)
Theorem setFormat_result (draw_Quantizer draw_Drawer : Type)
    (U : string -> string) (order : list (Format * string)) (filename : string)
    (options : list (EncodeOption draw_Quantizer draw_Drawer)) :
  range_order formatExts order ->
  (ToLower U filename ∈ ["jpg"; "png"; "gif"; "tif"; "bmp"; "pdf"]%string ->
   exists F,
     formatExts !! F = Some (ToLower U filename) /\
     setFormat U order filename options
     = ({| FormatOption.Format := F; FormatOption.EncodeOption := options |}, None)) /\
  (ToLower U filename ∉ ["jpg"; "png"; "gif"; "tif"; "bmp"; "pdf"]%string ->
   setFormat U order filename options
   = ({| FormatOption.Format := JPEG; FormatOption.EncodeOption := [] |},
      errors_New "unsupported image format")).
Proof.
  intros Horder. split.
  - intros [F HF]%formatExts_ext_iff. exists F.
    split; [exact HF|]. now apply setFormat_registered.
  - intros Hnin. apply setFormat_unregistered; [assumption|].
    intros k Hk. apply Hnin, formatExts_ext_iff. now exists k.
Qed.

Lemma setFormat_result_witness :
  setFormat (draw_Quantizer := unit) (draw_Drawer := unit) (fun s => s)
    (map_to_list formatExts) "photo.png" [Quality 80]
  = ({| FormatOption.Format := JPEG; FormatOption.EncodeOption := [] |},
     errors_New "unsupported image format").
Proof.
  apply (setFormat_result unit unit (fun s => s) (map_to_list formatExts)
           "photo.png" [Quality 80] (Permutation_refl _)).
  apply (bool_decide_unpack _). vm_compute. exact I.
Defined.

(** X6. Going through the registry and back, as the encode test does:
    for each of the six formats [setFormat] on the extension
    [StringOfFormat] returns gives that format with the given options
    and no error; for any other integer [StringOfFormat] returns the
    empty string, on which [setFormat] fails. *)
Theorem setFormat_StringOfFormat (draw_Quantizer draw_Drawer : Type)
    (U : string -> string) (order : list (Format * string)) (F : Format)
    (options : list (EncodeOption draw_Quantizer draw_Drawer)) :
  range_order formatExts order ->
  (F ∈ [JPEG; PNG; GIF; TIFF; BMP; PDF] ->
   setFormat U order (StringOfFormat F).1 options
   = ({| FormatOption.Format := F; FormatOption.EncodeOption := options |}, None)) /\
  (F ∉ [JPEG; PNG; GIF; TIFF; BMP; PDF] ->
   setFormat U order (StringOfFormat F).1 options
   = ({| FormatOption.Format := JPEG; FormatOption.EncodeOption := [] |},
      errors_New "unsupported image format")).
Proof.
  intros Horder. split.
  - intros [str Hstr]%formatExts_keys.
    rewrite (StringOfFormat_registered F str Hstr). cbn [fst].
    apply setFormat_registered; [assumption|].
    rewrite ToLower_ascii.
    + rewrite map_bytes_no_upper; [exact Hstr|].
      apply formatExts_lookup in Hstr.
      repeat (apply elem_of_cons in Hstr as [Hstr | Hstr];
              [now injection Hstr as -> ->|]).
      inversion Hstr.
    + apply formatExts_lookup in Hstr.
      repeat (apply elem_of_cons in Hstr as [Hstr | Hstr];
              [now injection Hstr as -> ->|]).
      inversion Hstr.
  - intros Hnin.
    assert (Hnone : StringOfFormat F = (""%string, errors_New "no such format")).
    { unfold StringOfFormat.
      destruct (formatExts !! F) as [str|] eqn:Hstr; [|reflexivity].
      exfalso. apply Hnin, formatExts_keys. now exists str. }
    rewrite Hnone. cbn [fst].
    apply setFormat_unregistered; [assumption|].
    intros k Hk%formatExts_length. discriminate Hk.
Qed.

Lemma setFormat_StringOfFormat_witness :
  setFormat (draw_Quantizer := unit) (draw_Drawer := unit) (fun s => s)
    (reverse (map_to_list formatExts)) (StringOfFormat GIF).1 [GIFNumColors 16]
  = ({| FormatOption.Format := GIF;
        FormatOption.EncodeOption := [GIFNumColors 16] |}, None).
Proof.
  apply (setFormat_StringOfFormat unit unit (fun s => s)
           (reverse (map_to_list formatExts)) GIF [GIFNumColors 16]).
  - unfold range_order. apply reverse_Permutation.
  - apply (bool_decide_unpack _). vm_compute. exact I.
Defined.

(** ** Lists of options *)

Section OptionCallFacts.
Context {draw_Quantizer draw_Drawer : Type}.
Local Abbreviation encodeConfig := (encodeConfig.t draw_Quantizer draw_Drawer).
Local Abbreviation EncodeOption := (EncodeOption draw_Quantizer draw_Drawer).
Local Abbreviation ConfigMem := (ConfigMem draw_Quantizer draw_Drawer).
Local Abbreviation OptionCall := (OptionCall draw_Quantizer draw_Drawer).

(** The loop of [Encode] over the options, from a given memory. *)
Local Abbreviation run_options :=
  (fold_left (fun (m : ConfigMem) (option : EncodeOption) => option addr_cfg m)).

Lemma option_of_constructed (c : OptionCall) : constructed (option_of c).
Proof. destruct c; constructor. Qed.

(** Options for different fields commute. *)
Lemma option_of_commute (c1 c2 : OptionCall) (p : cfg_addr) (m : ConfigMem) :
  field_of c1 <> field_of c2 ->
  option_of c1 p (option_of c2 p m) = option_of c2 p (option_of c1 p m).
Proof. destruct c1, c2, p; simpl; intros Hne; (reflexivity || contradiction). Qed.

(** An option undoes an earlier one for the same field. *)
Lemma option_of_override (c1 c2 : OptionCall) (p : cfg_addr) (m : ConfigMem) :
  field_of c1 = field_of c2 ->
  option_of c2 p (option_of c1 p m) = option_of c2 p m.
Proof. destruct c1, c2, p; simpl; intros Heq; (reflexivity || discriminate). Qed.

(** An option leaves the fields other than its own as they were. *)
Lemma option_of_other_field (c : OptionCall) (fld : field) (m : ConfigMem) :
  field_of c <> fld ->
  agree fld (var_cfg (option_of c addr_cfg m)) (var_cfg m).
Proof. destruct c, fld; simpl; intros Hne; (reflexivity || contradiction). Qed.

(** An option puts its argument into its field, whatever was there. *)
Lemma option_of_own_field (c : OptionCall) (m m' : ConfigMem) :
  agree (field_of c) (var_cfg (option_of c addr_cfg m))
    (var_cfg (option_of c addr_cfg m')).
Proof. destruct c; reflexivity. Qed.

Lemma agree_trans (fld : field) (c1 c2 c3 : encodeConfig) :
  agree fld c1 c2 -> agree fld c2 c3 -> agree fld c1 c3.
Proof. destruct fld; simpl; congruence. Qed.

Lemma run_other_field (us : list OptionCall) (fld : field) (m : ConfigMem) :
  fld ∉ field_of <$> us ->
  agree fld (var_cfg (run_options (option_of <$> us) m)) (var_cfg m).
Proof.
  revert m. induction us as [|c us IH]; intros m Hnin; simpl.
  - destruct fld; reflexivity.
  - rewrite fmap_cons in Hnin. apply not_elem_of_cons in Hnin as [Hne Hnin].
    eapply agree_trans; [now apply IH|].
    apply option_of_other_field. congruence.
Qed.

Lemma run_permute (us us' : list OptionCall) (m : ConfigMem) :
  us ≡ₚ us' -> NoDup (field_of <$> us) ->
  run_options (option_of <$> us) m = run_options (option_of <$> us') m.
Proof.
  intros Hperm. revert m.
  induction Hperm as [|c us us' Hperm IH|c1 c2 us|us us' us'' H1 IH1 H2 IH2];
    intros m Hnd.
  - reflexivity.
  - simpl. apply IH. rewrite fmap_cons in Hnd. now apply NoDup_cons in Hnd.
  - simpl. rewrite option_of_commute; [reflexivity|].
    rewrite !fmap_cons in Hnd. apply NoDup_cons in Hnd as [Hnin _].
    intros Heq. apply Hnin. rewrite Heq. apply elem_of_cons. now left.
  - rewrite IH1 by assumption. apply IH2. now rewrite <- H1.
Qed.

Lemma run_shadowed (c1 c2 : OptionCall) (mid : list OptionCall)
    (m : ConfigMem) :
  field_of c1 = field_of c2 ->
  option_of c2 addr_cfg (run_options (option_of <$> mid) (option_of c1 addr_cfg m))
  = option_of c2 addr_cfg (run_options (option_of <$> mid) m).
Proof.
  intros Heq. revert m. induction mid as [|x mid IH]; intros m; simpl.
  - now apply option_of_override.
  - destruct (decide (field_of c1 = field_of x)) as [Hx | Hx].
    + now rewrite option_of_override.
    + rewrite <- option_of_commute by assumption. apply IH.
Qed.

(** X7. Options that assign pairwise different fields can be passed in
    any order: every permutation of such a list of constructor calls
    leaves the same configuration. *)
Theorem options_permute (us us' : list OptionCall) (d : encodeConfig) :
  NoDup (field_of <$> us) -> us ≡ₚ us' ->
  apply_options (option_of <$> us) d = apply_options (option_of <$> us') d.
Proof. intros Hnd Hperm. unfold apply_options. now apply run_permute. Qed.

(** X8. An option that a later option for the same field follows has no
    effect: with constructor calls in between, and any options before
    and after, dropping it from the list leaves the same configuration
    memory. *)
Theorem option_shadowed (pre post : list EncodeOption) (c1 c2 : OptionCall)
    (mid : list OptionCall) (d : encodeConfig) :
  field_of c1 = field_of c2 ->
  apply_options
    (pre ++ option_of c1 :: (option_of <$> mid) ++ option_of c2 :: post) d
  = apply_options (pre ++ (option_of <$> mid) ++ option_of c2 :: post) d.
Proof.
  intros Heq. unfold apply_options.
  rewrite !fold_left_app. simpl. rewrite !fold_left_app. simpl.
  now rewrite run_shadowed.
Qed.

(** X9. What a list of options leaves in each field of the
    configuration: a field that no constructor call of the list assigns
    keeps the value [defaultEncodeConfig] had, and a field holds the
    argument of the last call that assigns it, whatever options ran
    before that call. *)
Theorem apply_options_fields (d : encodeConfig) :
  (forall (us : list OptionCall) fld,
     fld ∉ field_of <$> us ->
     agree fld (var_cfg (apply_options (option_of <$> us) d)) d) /\
  (forall (pre : list EncodeOption) (c : OptionCall) (post : list OptionCall) m,
     field_of c ∉ field_of <$> post ->
     agree (field_of c)
       (var_cfg (apply_options (pre ++ option_of c :: (option_of <$> post)) d))
       (var_cfg (option_of c addr_cfg m))).
Proof.
  split.
  - intros us fld Hnin. unfold apply_options.
    now apply (run_other_field us fld).
  - intros pre c post m Hnin. unfold apply_options.
    rewrite fold_left_app. simpl.
    eapply agree_trans; [now apply run_other_field|].
    apply option_of_own_field.
Qed.

End OptionCallFacts.

Lemma options_permute_witness :
  apply_options (draw_Quantizer := unit) (draw_Drawer := unit)
    [Quality 50; GIFNumColors 16; TIFFCompressionType TIFFDeflate]
    defaultEncodeConfig_init
  = apply_options
      [TIFFCompressionType TIFFDeflate; GIFNumColors 16; Quality 50]
      defaultEncodeConfig_init.
Proof.
  apply (options_permute (draw_Quantizer := unit) (draw_Drawer := unit)
           [call_Quality 50; call_GIFNumColors 16;
            call_TIFFCompressionType TIFFDeflate]
           [call_TIFFCompressionType TIFFDeflate; call_GIFNumColors 16;
            call_Quality 50]).
  - apply (bool_decide_unpack _). vm_compute. exact I.
  - exact (reverse_Permutation
             [call_TIFFCompressionType TIFFDeflate; call_GIFNumColors 16;
              call_Quality 50]).
Defined.

Lemma option_shadowed_witness :
  apply_options (draw_Quantizer := unit) (draw_Drawer := unit)
    [Quality 50; GIFNumColors 16; Quality 90] defaultEncodeConfig_init
  = apply_options [GIFNumColors 16; Quality 90] defaultEncodeConfig_init.
Proof.
  apply (option_shadowed (draw_Quantizer := unit) (draw_Drawer := unit)
           [] [] (call_Quality 50) (call_Quality 90) [call_GIFNumColors 16]).
  reflexivity.
Defined.

(** ** What [Encode] reads and forwards *)

Lemma TIFFCompression_value_other (c : TIFFCompression) :
  c ∉ [TIFFLZW; TIFFDeflate; TIFFCCITTGroup3; TIFFCCITTGroup4; TIFFJPEG] ->
  TIFFCompression_value c = tiff.Uncompressed.
Proof.
  intros Hc. unfold TIFFCompression_value.
  repeat match goal with
         | |- context [c =? ?k] =>
             destruct (Z.eqb_spec c k) as [Heq | _];
             [exfalso; apply Hc; rewrite Heq; set_solver|]
         end.
  reflexivity.
Qed.

Section EncodeReads.
Context {draw_Quantizer draw_Drawer OtherImage Writer : Type}.
Variable codec :
  CodecCall draw_Quantizer draw_Drawer OtherImage ->
  gmap positive (list Z) -> Writer -> Writer * run error.
Local Abbreviation FormatOption := (FormatOption.t draw_Quantizer draw_Drawer).
Local Abbreviation State := (State draw_Quantizer draw_Drawer).
Local Abbreviation EncodeOption := (EncodeOption draw_Quantizer draw_Drawer).

(** X10. Each case of [Encode] depends on the options only through the
    fields it mentions: two option lists that leave [defaultEncodeConfig]
    the same and agree on the fields read for the format (Quality for
    JPEG and PDF, the PNG level for PNG, the three GIF fields for GIF, the
    TIFF compression for TIFF, none for BMP) give the same result. *)
Theorem Encode_reads_only (f1 f2 : FormatOption) (st : State) (w : Writer)
    (img : Image OtherImage) :
  FormatOption.Format f1 = FormatOption.Format f2 ->
  state_after f1 st = state_after f2 st ->
  Forall (fun fld => agree fld (cfg_after f1 st) (cfg_after f2 st))
    (fields_read (FormatOption.Format f1)) ->
  Encode codec f1 st w img = Encode codec f2 st w img.
Proof.
  intros Hfmt Hst Hagree.
  unfold fields_read in Hagree. rewrite Hfmt in Hagree.
  unfold Encode, state_after, cfg_after in *.
  set (m1 := apply_options (FormatOption.EncodeOption f1) _) in *.
  set (m2 := apply_options (FormatOption.EncodeOption f2) _) in *.
  injection Hst as Hd. cbv zeta. rewrite Hfmt, Hd.
  repeat match goal with
         | |- context [FormatOption.Format f2 =? ?k] =>
             destruct (FormatOption.Format f2 =? k)
         end;
    repeat match goal with
           | H : Forall _ (_ :: _) |- _ => apply Forall_cons in H as [? H]
           end;
    simpl in *; try congruence.
  match goal with
  | Hq : encodeConfig.Quality _ = _ |- _ => now rewrite Hq
  end.
Qed.

(** X11. The BMP case takes nothing from the configuration: with options
    that work through the pointer they are given, whatever they set,
    [Encode] for BMP is the codec call on the image alone, in the state
    it started in. *)
Theorem Encode_BMP_ignores_options (f : FormatOption) (st : State) (w : Writer)
    (img : Image OtherImage) :
  FormatOption.Format f = BMP ->
  Forall through_pointer (FormatOption.EncodeOption f) ->
  Encode codec f st w img = invoke codec st w (bmp_Encode img).
Proof.
  intros Hfmt Hall. unfold Encode. rewrite Hfmt. simpl.
  rewrite apply_options_default by assumption. now destruct st.
Qed.

(** X12. The argument of an option reaches the codec as it is, for every
    integer, however far out of the documented range: a trailing
    [Quality(q)] gives the PDF codec, and the JPEG codec for an image
    that is not an NRGBA, Quality q; a trailing [PNGCompressionLevel(l)]
    gives the PNG encoder level l; trailing [GIFNumColors(n)],
    [GIFQuantizer(qz)], [GIFDrawer(dr)] give the GIF codec n, qz and dr;
    a trailing [TIFFCompressionType(c)] gives the TIFF codec the constant
    [value] maps c to. *)
Theorem Encode_forwards_unvalidated (options : list EncodeOption) (st : State)
    (w : Writer) (img : Image OtherImage) :
  (forall q,
     Encode codec
       {| FormatOption.Format := PDF;
          FormatOption.EncodeOption := options ++ [Quality q] |} st w img
     = invoke codec
         (state_after
            {| FormatOption.Format := PDF;
               FormatOption.EncodeOption := options |} st) w
         (pdf_Encode [img] {| pdf.Quality := q |})) /\
  (forall q,
     (forall n, img <> NRGBA_ptr n) ->
     Encode codec
       {| FormatOption.Format := JPEG;
          FormatOption.EncodeOption := options ++ [Quality q] |} st w img
     = invoke codec
         (state_after
            {| FormatOption.Format := JPEG;
               FormatOption.EncodeOption := options |} st) w
         (jpeg_Encode img {| jpeg.Quality := q |})) /\
  (forall l,
     Encode codec
       {| FormatOption.Format := PNG;
          FormatOption.EncodeOption := options ++ [PNGCompressionLevel l] |}
       st w img
     = invoke codec
         (state_after
            {| FormatOption.Format := PNG;
               FormatOption.EncodeOption := options |} st) w
         (png_Encoder_Encode {| png.Encoder.CompressionLevel := l |} img)) /\
  (forall n qz dr,
     Encode codec
       {| FormatOption.Format := GIF;
          FormatOption.EncodeOption :=
            options ++ [GIFNumColors n; GIFQuantizer qz; GIFDrawer dr] |}
       st w img
     = invoke codec
         (state_after
            {| FormatOption.Format := GIF;
               FormatOption.EncodeOption := options |} st) w
         (gif_Encode img
            {| gif.NumColors := n; gif.Quantizer := qz; gif.Drawer := dr |})) /\
  (forall c,
     Encode codec
       {| FormatOption.Format := TIFF;
          FormatOption.EncodeOption := options ++ [TIFFCompressionType c] |}
       st w img
     = invoke codec
         (state_after
            {| FormatOption.Format := TIFF;
               FormatOption.EncodeOption := options |} st) w
         (tiff_Encode img
            {| tiff.Compression := TIFFCompression_value c;
               tiff.Predictor := true |})).
Proof.
  repeat split; intros;
    unfold Encode, state_after, apply_options; simpl;
    rewrite fold_left_app; simpl;
    try reflexivity.
  destruct img as [n | r | m]; [now destruct (H n)|reflexivity|reflexivity].
Qed.

(** X13. A TIFF compression setting outside the five mapped values is
    not an error: [Encode] calls the TIFF codec with [tiff.Uncompressed]
    and the predictor set. *)
Theorem Encode_TIFF_unknown_compression (options : list EncodeOption)
    (c : TIFFCompression) (st : State) (w : Writer) (img : Image OtherImage) :
  c ∉ [TIFFLZW; TIFFDeflate; TIFFCCITTGroup3; TIFFCCITTGroup4; TIFFJPEG] ->
  Encode codec
    {| FormatOption.Format := TIFF;
       FormatOption.EncodeOption := options ++ [TIFFCompressionType c] |}
    st w img
  = invoke codec
      (state_after
         {| FormatOption.Format := TIFF;
            FormatOption.EncodeOption := options |} st) w
      (tiff_Encode img
         {| tiff.Compression := tiff.Uncompressed; tiff.Predictor := true |}).
Proof.
  intros Hc. unfold Encode, state_after, apply_options. simpl.
  rewrite fold_left_app. simpl.
  now rewrite (TIFFCompression_value_other c Hc).
Qed.

(** X14. An NRGBA image with an empty rectangle counts as opaque without
    a pixel being read: for JPEG, [Encode] hands the codec the RGBA view
    of it whatever the pixel slice and the heap hold. *)
Theorem Encode_JPEG_empty_NRGBA (f : FormatOption) (st : State) (w : Writer)
    (n : image.NRGBA.t) :
  FormatOption.Format f = JPEG ->
  image.Rectangle_Empty (image.NRGBA.Rect n) = true ->
  Encode codec f st w (NRGBA_ptr n)
  = invoke codec (state_after f st) w
      (jpeg_Encode
         (RGBA_ptr {| image.RGBA.Pix := image.NRGBA.Pix n;
                      image.RGBA.Stride := image.NRGBA.Stride n;
                      image.RGBA.Rect := image.NRGBA.Rect n |})
         {| jpeg.Quality := encodeConfig.Quality (cfg_after f st) |}).
Proof.
  intros Hfmt Hempty. apply Encode_JPEG_Opaque; [assumption|].
  unfold image.NRGBA.Opaque. now rewrite Hempty.
Qed.

End EncodeReads.

Lemma Encode_reads_only_witness :
  Encode (draw_Quantizer := unit) (draw_Drawer := unit) (OtherImage := unit)
    recording_codec
    {| FormatOption.Format := PNG;
       FormatOption.EncodeOption := [Quality 10; TIFFCompressionType TIFFJPEG] |}
    (initial_State ∅) [] (other_image tt)
  = Encode recording_codec
      {| FormatOption.Format := PNG; FormatOption.EncodeOption := [] |}
      (initial_State ∅) [] (other_image tt).
Proof.
  apply (Encode_reads_only (draw_Quantizer := unit) (draw_Drawer := unit)
           (OtherImage := unit) recording_codec).
  - reflexivity.
  - reflexivity.
  - repeat constructor.
Defined.

Lemma Encode_BMP_ignores_options_witness :
  Encode (draw_Quantizer := unit) (draw_Drawer := unit) (OtherImage := unit)
    recording_codec
    {| FormatOption.Format := BMP;
       FormatOption.EncodeOption := [Quality 10; GIFNumColors 2] |}
    (initial_State ∅) [] (other_image tt)
  = invoke recording_codec (initial_State ∅) [] (bmp_Encode (other_image tt)).
Proof.
  apply (Encode_BMP_ignores_options (draw_Quantizer := unit)
           (draw_Drawer := unit) (OtherImage := unit) recording_codec).
  - reflexivity.
  - repeat (constructor; try (apply constructed_through_pointer; constructor)).
Defined.

Lemma Encode_TIFF_unknown_compression_witness :
  Encode (draw_Quantizer := unit) (draw_Drawer := unit) (OtherImage := unit)
    recording_codec
    {| FormatOption.Format := TIFF;
       FormatOption.EncodeOption := [] ++ [TIFFCompressionType 99] |}
    (initial_State ∅) [] (other_image tt)
  = invoke recording_codec
      (state_after
         {| FormatOption.Format := TIFF; FormatOption.EncodeOption := [] |}
         (initial_State ∅)) []
      (tiff_Encode (other_image tt)
         {| tiff.Compression := tiff.Uncompressed; tiff.Predictor := true |}).
Proof.
  apply (Encode_TIFF_unknown_compression (draw_Quantizer := unit)
           (draw_Drawer := unit) (OtherImage := unit) recording_codec [] 99).
  apply (bool_decide_unpack _). vm_compute. exact I.
Defined.

Lemma Encode_JPEG_empty_NRGBA_witness :
  sink
    (Encode (draw_Quantizer := unit) (draw_Drawer := unit) (OtherImage := unit)
       recording_codec
       {| FormatOption.Format := JPEG; FormatOption.EncodeOption := [] |}
       (initial_State ∅) [] (NRGBA_ptr sample_empty_NRGBA))
  = [jpeg_Encode
       (RGBA_ptr
          {| image.RGBA.Pix := image.NRGBA.Pix sample_empty_NRGBA;
             image.RGBA.Stride := 0;
             image.RGBA.Rect := image.NRGBA.Rect sample_empty_NRGBA |})
       {| jpeg.Quality := 75 |}].
Proof.
  exact (f_equal sink
           (Encode_JPEG_empty_NRGBA (draw_Quantizer := unit)
              (draw_Drawer := unit) (OtherImage := unit) recording_codec
              {| FormatOption.Format := JPEG; FormatOption.EncodeOption := [] |}
              (initial_State ∅) [] sample_empty_NRGBA eq_refl eq_refl)).
Defined.

(** ** [setFormat] followed by [Encode] *)

Lemma setFormat_or_nil_registered (draw_Quantizer draw_Drawer : Type)
    (U : string -> string) (order : list (Format * string)) (filename : string)
    (options : list (option (EncodeOption draw_Quantizer draw_Drawer)))
    (F : Format) :
  range_order formatExts order ->
  formatExts !! F = Some (ToLower U filename) ->
  setFormat_or_nil U order filename options
  = ({| FormatOption_or_nil.Format := F;
        FormatOption_or_nil.EncodeOption := options |}, None).
Proof.
  intros Horder HF. unfold setFormat_or_nil.
  now rewrite (FormatFromExtension_registered U order Horder filename F HF).
Qed.

Lemma setFormat_or_nil_unregistered (draw_Quantizer draw_Drawer : Type)
    (U : string -> string) (order : list (Format * string)) (filename : string)
    (options : list (option (EncodeOption draw_Quantizer draw_Drawer))) :
  range_order formatExts order ->
  (forall k, formatExts !! k <> Some (ToLower U filename)) ->
  (setFormat_or_nil U order filename options).2
  = errors_New "unsupported image format".
Proof.
  intros Horder Hnone. unfold setFormat_or_nil.
  now rewrite (FormatFromExtension_unregistered U order Horder filename Hnone).
Qed.

(** X15. A [FormatOption] that [setFormat] returned without an error has
    a format [Encode] has a codec for, and the options it was given.  If
    none of them is nil, [Encode] ends in a codec call, the same whatever
    the codec and the writer, and does not return "unsupported image
    format" of its own (for JPEG unless [Opaque] panics on a malformed
    NRGBA image); if one is nil, [setFormat] succeeds all the same and
    [Encode] panics in its option loop, before any codec call and with
    the writer as it was. *)
Theorem setFormat_Encode (draw_Quantizer draw_Drawer OtherImage : Type)
    (U : string -> string) (order : list (Format * string)) (filename : string)
    (options : list (option (EncodeOption draw_Quantizer draw_Drawer)))
    (st : State draw_Quantizer draw_Drawer) (img : Image OtherImage) :
  range_order formatExts order ->
  (setFormat_or_nil U order filename options).2 = None ->
  FormatOption_or_nil.EncodeOption (setFormat_or_nil U order filename options).1
  = options /\
  (None ∉ options ->
   (exists c,
      forall (Writer : Type)
             (codec : CodecCall draw_Quantizer draw_Drawer OtherImage ->
                      gmap positive (list Z) -> Writer -> Writer * run error)
             (w : Writer),
        Encode_or_nil codec (setFormat_or_nil U order filename options).1 st w img
        = invoke codec
            (state_after
               (FormatOption_or_nil.called
                  (setFormat_or_nil U order filename options).1) st) w c) \/
   (FormatOption_or_nil.Format (setFormat_or_nil U order filename options).1 = JPEG /\
    exists n, img = NRGBA_ptr n /\ image.NRGBA.Opaque (heap st) n = Panics)) /\
  (None ∈ options ->
   forall (Writer : Type)
          (codec : CodecCall draw_Quantizer draw_Drawer OtherImage ->
                   gmap positive (list Z) -> Writer -> Writer * run error)
          (w : Writer),
     ret (Encode_or_nil codec (setFormat_or_nil U order filename options).1 st w img)
     = Panics /\
     sink (Encode_or_nil codec (setFormat_or_nil U order filename options).1 st w img)
     = w).
Proof.
  intros Horder Hnil.
  destruct (formatExts_registered_dec (ToLower U filename)) as [[k Hk] | Hnone].
  2: { rewrite (setFormat_or_nil_unregistered _ _ U order filename options
                  Horder Hnone) in Hnil.
       discriminate Hnil. }
  rewrite (setFormat_or_nil_registered _ _ U order filename options k Horder Hk).
  cbn [fst]. split; [reflexivity|]. split.
  - intros Hno.
    destruct (Encode_reaches_codec _ _ _
                (FormatOption_or_nil.called
                   {| FormatOption_or_nil.Format := k;
                      FormatOption_or_nil.EncodeOption := options |}) st img)
      as [[c Hc] | Hpanic].
    + simpl. apply formatExts_keys. eauto.
    + left. exists c. intros Writer codec w.
      rewrite Encode_or_nil_no_nil by assumption. apply Hc.
    + right. exact Hpanic.
  - intros Hyes Writer codec w.
    rewrite Encode_or_nil_nil by assumption. split; reflexivity.
Qed.

Lemma setFormat_Encode_witness :
  ret (Encode_or_nil (draw_Quantizer := unit) (draw_Drawer := unit)
         (OtherImage := unit) recording_codec
         (setFormat_or_nil (fun s => s) (map_to_list formatExts) "png"
            [Some (Quality 60); None]).1
         (initial_State ∅) [] (other_image tt))
  = Panics /\
  sink (Encode_or_nil (draw_Quantizer := unit) (draw_Drawer := unit)
          (OtherImage := unit) recording_codec
          (setFormat_or_nil (fun s => s) (map_to_list formatExts) "png"
             [Some (Quality 60); None]).1
          (initial_State ∅) [] (other_image tt))
  = [].
Proof.
  refine (proj2 (proj2
    (setFormat_Encode unit unit unit (fun s => s) (map_to_list formatExts)
       "png" [Some (Quality 60); None] (initial_State ∅) (other_image tt)
       (Permutation_refl _) eq_refl)) _ _ recording_codec []).
  apply elem_of_cons. right. apply elem_of_cons. now left.
Defined.
